(** * parse_bhash_opreturn: a shallow embedding of the BHASH OP_RETURN parser

    The program [parse_bhash_opreturn.py] works on the hexadecimal text of a
    raw Bitcoin transaction: every position is an index into a Python [str],
    two characters per byte.  The embedding keeps that representation.  A
    Python [str] is a [list ascii] (code points 0..255), a [bytes] object is a
    [list byte], Python integers are [Z], and a raised exception is the
    [Raise] branch of [result].

    The built-ins the program calls ([s[i:j]], [int(s, 16)], [bytes.fromhex],
    [int.from_bytes], [str.startswith], [range], [dict] item assignment) are
    modelled first, following CPython 3.7 and later; [parse_varint],
    [extract_vout_scripts] and [parse_bhash_from_script] follow; the
    byte-level facts and the theorems come last. *)

From Stdlib Require Import ZArith String Ascii List Bool Lia.
From Stdlib.Strings Require Import Byte.
Import ListNotations.
Open Scope Z_scope.

(** ** Exceptions and results *)

(** The exception classes of the built-ins involved.  The program has no
    [raise] statement of its own: whatever it raises comes from a built-in.
    [ValueError] is what [int] and [bytes.fromhex] raise on a bad literal,
    [IndexError] what indexing out of range raises, [OverflowError] what
    CPython raises when an integer does not fit the platform size type. *)
Inductive exception : Type :=
| ValueError
| IndexError
| OverflowError.

Inductive result (A : Type) : Type :=
| Ok (a : A)
| Raise (e : exception).

Arguments Ok {A} a.
Arguments Raise {A} e.

Definition bind {A B : Type} (m : result A) (k : A -> result B) : result B :=
  match m with
  | Ok a => k a
  | Raise e => Raise e
  end.

Notation "x <- m ;; k" := (bind m (fun x => k))
  (at level 61, m at next level, right associativity).
Notation "' p <- m ;; k" := (bind m (fun x => match x with p => k end))
  (at level 61, p pattern, m at next level, right associativity).

(** ** Python strings and slices *)

Definition str : Type := list ascii.

Definition lit (s : string) : str := list_ascii_of_string s.

Definition len {A : Type} (s : list A) : Z := Z.of_nat (length s).

(** Normalisation of one bound of [s[i:j]]: a negative bound counts from the
    end, and every bound is clipped to [0 .. len s]. *)
Definition slice_index (n i : Z) : Z :=
  if i <? 0 then Z.max (i + n) 0 else Z.min i n.

(** [s[i:j]] *)
Definition py_slice {A : Type} (s : list A) (i j : Z) : list A :=
  let lo := slice_index (len s) i in
  let hi := slice_index (len s) j in
  firstn (Z.to_nat (hi - lo)) (skipn (Z.to_nat lo) s).

(** [s[i:]] *)
Definition py_slice_from {A : Type} (s : list A) (i : Z) : list A :=
  skipn (Z.to_nat (slice_index (len s) i)) s.

(** [s[i]] *)
Definition py_index {A : Type} (s : list A) (i : Z) : result A :=
  let k := if i <? 0 then i + len s else i in
  if k <? 0 then Raise IndexError
  else match nth_error s (Z.to_nat k) with
       | Some a => Ok a
       | None => Raise IndexError
       end.

Fixpoint str_eqb (s t : str) : bool :=
  match s, t with
  | [], [] => true
  | c :: s', d :: t' => Ascii.eqb c d && str_eqb s' t'
  | _, _ => false
  end.

Fixpoint startswith (s prefix : str) {struct prefix} : bool :=
  match prefix, s with
  | [], _ => true
  | d :: prefix', c :: s' => Ascii.eqb c d && startswith s' prefix'
  | _ :: _, [] => false
  end.

(** ** [int(s, 16)] *)

Definition code (c : ascii) : Z := Z.of_N (N_of_ascii c).

(** The C-locale white space that [int] and [bytes.fromhex] skip. *)
Definition is_space (c : ascii) : bool :=
  let n := code c in
  ((9 <=? n) && (n <=? 13)) || (n =? 32).

(** Before parsing, [int] turns the Unicode white space of a non-ASCII
    string into a blank; below 256 these are U+0085 and U+00A0. *)
Definition to_ascii_space (c : ascii) : ascii :=
  let n := code c in
  if (n =? 133) || (n =? 160) then " "%char else c.

Definition hex_digit_value (c : ascii) : option Z :=
  let n := code c in
  if (48 <=? n) && (n <=? 57) then Some (n - 48)
  else if (97 <=? n) && (n <=? 102) then Some (n - 87)
  else if (65 <=? n) && (n <=? 70) then Some (n - 55)
  else None.

Fixpoint drop_spaces (s : str) : str :=
  match s with
  | c :: s' => if is_space c then drop_spaces s' else s
  | [] => []
  end.

Definition is_underscore (c : ascii) : bool := code c =? 95.

(** The digit loop of [int]: digits with single underscores between them.
    [acc] is [None] until a digit was read; the result is the value and the
    text left over. *)
Fixpoint scan_digits (s : str) (prev_us : bool) (acc : option Z)
  : option (Z * str) :=
  let finish :=
    if prev_us then None
    else match acc with
         | Some v => Some (v, s)
         | None => None
         end in
  match s with
  | [] => finish
  | c :: s' =>
      if is_underscore c then
        if prev_us then None else scan_digits s' true acc
      else
        match hex_digit_value c with
        | Some d =>
            scan_digits s' false
              (Some (16 * match acc with Some v => v | None => 0 end + d))
        | None => finish
        end
  end.

Definition is_x (c : ascii) : bool := (code c =? 120) || (code c =? 88).

(** [None] stands for the [ValueError] that [int] raises. *)
Definition py_int16 (s : str) : option Z :=
  let s := drop_spaces (map to_ascii_space s) in
  let '(sign, s) :=
    match s with
    | c :: s' =>
        if code c =? 43 then (1, s')
        else if code c =? 45 then (-1, s')
        else (1, s)
    | [] => (1, s)
    end in
  let s :=
    match s with
    | z :: x :: s' =>
        if (code z =? 48) && is_x x then
          match s' with
          | u :: s'' => if is_underscore u then s'' else s'
          | [] => s'
          end
        else s
    | _ => s
    end in
  match s with
  | c :: _ => if is_underscore c then None else
      match scan_digits s false None with
      | Some (v, tl) =>
          match drop_spaces tl with
          | [] => Some (sign * v)
          | _ :: _ => None
          end
      | None => None
      end
  | [] => None
  end.

Definition int16 (s : str) : result Z :=
  match py_int16 s with
  | Some v => Ok v
  | None => Raise ValueError
  end.

(** ** [bytes.fromhex] and [int.from_bytes] *)

Definition byte_val (b : byte) : Z := Z.of_N (Byte.to_N b).

Definition byte_of_Z (v : Z) : byte :=
  match Byte.of_N (Z.to_N v) with
  | Some b => b
  | None => x00
  end.

(** White space is skipped between pairs of digits, never inside a pair;
    [None] stands for the [ValueError]. *)
Fixpoint py_fromhex (s : str) : option (list byte) :=
  match s with
  | [] => Some []
  | c :: s' =>
      if is_space c then py_fromhex s'
      else
        match hex_digit_value c, s' with
        | Some top, d :: s'' =>
            match hex_digit_value d with
            | Some bot =>
                match py_fromhex s'' with
                | Some bs => Some (byte_of_Z (16 * top + bot) :: bs)
                | None => None
                end
            | None => None
            end
        | _, _ => None
        end
  end.

Definition bytes_fromhex (s : str) : result (list byte) :=
  match py_fromhex s with
  | Some bs => Ok bs
  | None => Raise ValueError
  end.

(** [int.from_bytes(bs, 'little')] *)
Fixpoint from_little (bs : list byte) : Z :=
  match bs with
  | [] => 0
  | b :: bs' => byte_val b + 256 * from_little bs'
  end.

(** [int.from_bytes(bs, 'big')] *)
Definition from_big (bs : list byte) : Z :=
  fold_left (fun acc b => 256 * acc + byte_val b) bs 0.

(** ** [for _ in range(n)] *)

Section ForRange.
Context {S : Type} (body : S -> result S).

Fixpoint iter_nat (n : nat) (s : S) : result S :=
  match n with
  | O => Ok s
  | Datatypes.S n' => s' <- body s ;; iter_nat n' s'
  end.

(** The same loop by the binary digits of the count, so that a count of
    2^64 - 1 still evaluates when the body raises early. *)
Fixpoint iter_pos (p : positive) (s : S) : result S :=
  match p with
  | xH => body s
  | xO p' => s' <- iter_pos p' s ;; iter_pos p' s'
  | xI p' => s' <- body s ;; s'' <- iter_pos p' s' ;; iter_pos p' s''
  end.

(** [range(n)] is empty when [n <= 0]. *)
Definition for_range (n : Z) (s : S) : result S :=
  match n with
  | Zpos p => iter_pos p s
  | _ => Ok s
  end.
End ForRange.

(** ** [for x in xs], [range(start, stop, step)], [enumerate], [dict] *)

Fixpoint for_each {A S : Type} (body : S -> A -> result S) (xs : list A)
    (s : S) : result S :=
  match xs with
  | [] => Ok s
  | x :: xs' => s' <- body s x ;; for_each body xs' s'
  end.

(** [range(start, stop, step)] for a positive [step]. *)
Definition py_range (start stop step : Z) : list Z :=
  map (fun k => start + Z.of_nat k * step)
      (seq 0 (Z.to_nat ((stop - start + step - 1) / step))).

Definition enumerate {A : Type} (xs : list A) : list (Z * A) :=
  combine (map Z.of_nat (seq 0 (length xs))) xs.

(** A [dict] keeps its keys in insertion order; [d[k] = v] replaces the value
    of a key that is present and appends a new key at the end. *)
Definition dict : Type := list (ascii * Z).

Fixpoint dict_set (d : dict) (k : ascii) (v : Z) : dict :=
  match d with
  | [] => [(k, v)]
  | (k', v') :: d' =>
      if Ascii.eqb k' k then (k', v) :: d' else (k', v') :: dict_set d' k v
  end.

(** [sum(d.values())] *)
Definition dict_sum (d : dict) : Z := fold_right Z.add 0 (map snd d).

(** ** The program *)

(** [parse_varint(hex_str, offset)] *)
Definition parse_varint (hex_str : str) (offset : Z) : result (Z * Z) :=
  first <- int16 (py_slice hex_str offset (offset + 2)) ;;
  let offset := offset + 2 in
  if first <? 253 then Ok (first, offset)
  else if first =? 253 then
    bs <- bytes_fromhex (py_slice hex_str offset (offset + 4)) ;;
    Ok (from_little bs, offset + 4)
  else if first =? 254 then
    bs <- bytes_fromhex (py_slice hex_str offset (offset + 8)) ;;
    Ok (from_little bs, offset + 8)
  else
    bs <- bytes_fromhex (py_slice hex_str offset (offset + 16)) ;;
    Ok (from_little bs, offset + 16).

(** The bodies of the loops of [extract_vout_scripts], on the loop state:
    the cursor [pos], and for the output loop the list [scripts] too. *)

(** [for _ in range(input_count)] *)
Definition skip_input (data : str) (pos : Z) : result Z :=
  let pos := pos + 64 in
  let pos := pos + 8 in
  '(script_len, pos) <- parse_varint data pos ;;
  let pos := pos + script_len * 2 in
  let pos := pos + 8 in
  Ok pos.

(** [for _ in range(output_count)] *)
Definition read_output (data : str) (st : Z * list str)
  : result (Z * list str) :=
  let '(pos, scripts) := st in
  let pos := pos + 16 in
  '(script_len, pos) <- parse_varint data pos ;;
  let script := py_slice data pos (pos + script_len * 2) in
  let pos := pos + script_len * 2 in
  Ok (pos, scripts ++ [script]).

(** [for __ in range(witness_count)] *)
Definition skip_witness_item (data : str) (pos : Z) : result Z :=
  '(item_len, pos) <- parse_varint data pos ;;
  let pos := pos + item_len * 2 in
  Ok pos.

(** [for _ in range(input_count)], the witness pass *)
Definition skip_witness (data : str) (pos : Z) : result Z :=
  '(witness_count, pos) <- parse_varint data pos ;;
  for_range (skip_witness_item data) witness_count pos.

(** [data[pos:pos+2] == '00' and data[pos+2:pos+4] == '01'] *)
Definition has_marker (data : str) (pos : Z) : bool :=
  str_eqb (py_slice data pos (pos + 2)) (lit "00")
  && str_eqb (py_slice data (pos + 2) (pos + 4)) (lit "01").

(** [extract_vout_scripts(tx_hex)] *)
Definition extract_vout_scripts (tx_hex : str) : result (list str) :=
  let pos := 0 in
  let data := tx_hex in
  let pos := pos + 8 in
  let is_segwit := has_marker data pos in
  let pos := if is_segwit then pos + 4 else pos in
  '(input_count, pos) <- parse_varint data pos ;;
  pos <- for_range (skip_input data) input_count pos ;;
  '(output_count, pos) <- parse_varint data pos ;;
  '(pos, scripts) <- for_range (read_output data) output_count (pos, []) ;;
  pos <- (if is_segwit then for_range (skip_witness data) input_count pos
          else Ok pos) ;;
  Ok scripts.

(** The dictionary that [parse_bhash_from_script] returns. *)
Record bhash_record : Type := mk_bhash_record {
  magic : Z;
  content_type : Z;
  block_height : Z;
  asset_type : Z;
  bet_data : list Z;
  bet_dict : dict
}.

(** [parse_bhash_from_script(script_hex)]; [Ok None] is the [return None]. *)
Definition parse_bhash_from_script (script_hex : str)
  : result (option bhash_record) :=
  if negb (startswith script_hex (lit "6a")) then Ok None else
  let rest := py_slice_from script_hex 2 in
  if len rest <? 2 then Ok None else
  match int16 (py_slice rest 0 2) with
  | Raise ValueError => Ok None
  | Raise e => Raise e
  | Ok push_len =>
      let payload_hex_start := 2 in
      let payload_hex_end := 2 + push_len * 2 in
      if len rest <? payload_hex_end then Ok None else
      payload_bytes <-
        bytes_fromhex (py_slice rest payload_hex_start payload_hex_end) ;;
      if len payload_bytes <? 40 then Ok None else
      b0 <- py_index payload_bytes 0 ;;
      if negb (byte_val b0 =? 145) then Ok None else
      let payload := py_slice payload_bytes 0 40 in
      magic <- py_index payload 0 ;;
      content_type <- py_index payload 1 ;;
      let block_height := from_big (py_slice payload 2 6) in
      let asset_type := from_big (py_slice payload 6 8) in
      let bet_data_raw := py_slice payload 8 40 in
      bet_data <-
        for_each
          (fun bet_data i =>
             let val := from_little (py_slice bet_data_raw i (i + 2)) in
             Ok (bet_data ++ [val]))
          (py_range 0 32 2) [] ;;
      let hex_chars := lit "0123456789abcdef" in
      bet_dict <-
        for_each
          (fun bet_dict '(i, amount) =>
             if amount >? 0 then
               c <- py_index hex_chars i ;;
               Ok (dict_set bet_dict c amount)
             else Ok bet_dict)
          (enumerate bet_data) [] ;;
      Ok (Some {| magic := byte_val magic;
                  content_type := byte_val content_type;
                  block_height := block_height;
                  asset_type := asset_type;
                  bet_data := bet_data;
                  bet_dict := bet_dict |})
  end.

(** ** Byte buffers and their hexadecimal text *)

(** [bytes.hex()]: two lower-case digits per byte.  This is the text the
    program receives for a byte buffer. *)
Definition hex_char (n : Z) : ascii :=
  nth (Z.to_nat n) (lit "0123456789abcdef") "0"%char.

Definition hex_of_byte (b : byte) : str :=
  [hex_char (byte_val b / 16); hex_char (byte_val b mod 16)].

Definition hex (bs : list byte) : str := flat_map hex_of_byte bs.

(** Bitcoin's compact-size encoder, the inverse that [parse_varint] is
    measured against. *)
Fixpoint to_little (n : nat) (v : Z) : list byte :=
  match n with
  | O => []
  | S n' => byte_of_Z (v mod 256) :: to_little n' (v / 256)
  end.

Definition encode_varint (v : Z) : list byte :=
  if v <? 253 then [byte_of_Z v]
  else if v <? 65536 then xfd :: to_little 2 v
  else if v <? 4294967296 then xfe :: to_little 4 v
  else xff :: to_little 8 v.

(** ** Compact-size integers, byte by byte *)

(** Number of bytes that follow the first byte of a compact-size integer. *)
Definition varint_width (b : byte) : nat :=
  if byte_val b <? 253 then 0%nat
  else if byte_val b =? 253 then 2%nat
  else if byte_val b =? 254 then 4%nat
  else 8%nat.

(** The value read after first byte [b] when [rest] is what the buffer still
    holds: the bytes that are missing at the end count as zero. *)
Definition varint_value (b : byte) (rest : list byte) : Z :=
  if byte_val b <? 253 then byte_val b
  else from_little (firstn (varint_width b) rest).

(** 2^64: the values a compact-size integer can hold lie below it. *)
Definition varint_max : Z := 18446744073709551616.

(** ** Well-formed transactions and their serialisations *)

Record tx_in : Type := mk_tx_in {
  in_txid : list byte;
  in_vout : list byte;
  in_script : list byte;
  in_sequence : list byte
}.

Record tx_out : Type := mk_tx_out {
  out_value : list byte;
  out_script : list byte
}.

Definition ser_in (i : tx_in) : list byte :=
  in_txid i ++ in_vout i ++ encode_varint (len (in_script i))
  ++ in_script i ++ in_sequence i.

Definition ser_out (o : tx_out) : list byte :=
  out_value o ++ encode_varint (len (out_script o)) ++ out_script o.

Definition ser_item (item : list byte) : list byte :=
  encode_varint (len item) ++ item.

Definition ser_stack (stack : list (list byte)) : list byte :=
  encode_varint (len stack) ++ flat_map ser_item stack.

Definition wf_in (i : tx_in) : bool :=
  (length (in_txid i) =? 32)%nat && (length (in_vout i) =? 4)%nat
  && (length (in_sequence i) =? 4)%nat && (len (in_script i) <? varint_max).

Definition wf_out (o : tx_out) : bool :=
  (length (out_value o) =? 8)%nat && (len (out_script o) <? varint_max).

Definition wf_stack (stack : list (list byte)) : bool :=
  (len stack <? varint_max)
  && forallb (fun item => len item <? varint_max) stack.

(** The legacy serialisation: version, inputs, outputs, and a tail (the
    lock time) that the walker never reads. *)
Definition legacy_tx (version : list byte) (ins : list tx_in)
    (outs : list tx_out) (tail : list byte) : list byte :=
  version ++ encode_varint (len ins) ++ flat_map ser_in ins
  ++ encode_varint (len outs) ++ flat_map ser_out outs ++ tail.

(** The segregated-witness serialisation: marker and flag after the version,
    one witness stack per input after the outputs. *)
Definition segwit_tx (version : list byte) (ins : list tx_in)
    (outs : list tx_out) (wits : list (list (list byte)))
    (tail : list byte) : list byte :=
  version ++ [x00; x01] ++ encode_varint (len ins) ++ flat_map ser_in ins
  ++ encode_varint (len outs) ++ flat_map ser_out outs
  ++ flat_map ser_stack wits ++ tail.

Definition wf_tx (version : list byte) (ins : list tx_in)
    (outs : list tx_out) : bool :=
  (length version =? 4)%nat && (len ins <? varint_max)
  && (len outs <? varint_max) && forallb wf_in ins && forallb wf_out outs.

(** ** Views of [extract_vout_scripts] *)

(** Bytes 4 and 5 of the buffer are [00 01]. *)
Definition marker_bytes (bs : list byte) : bool :=
  match skipn 4 bs with
  | b0 :: b1 :: _ => (byte_val b0 =? 0) && (byte_val b1 =? 1)
  | _ => false
  end.

(** What [extract_vout_scripts] does once [is_segwit] and [pos] are set. *)
Definition walk (data : str) (is_segwit : bool) (pos : Z)
  : result (list str) :=
  '(input_count, pos) <- parse_varint data pos ;;
  pos <- for_range (skip_input data) input_count pos ;;
  '(output_count, pos) <- parse_varint data pos ;;
  '(pos, scripts) <- for_range (read_output data) output_count (pos, []) ;;
  pos <- (if is_segwit then for_range (skip_witness data) input_count pos
          else Ok pos) ;;
  Ok scripts.

(** The scripts of the outputs, as text, in output order. *)
Definition scripts_of (outs : list tx_out) : list str :=
  map (fun o => hex (out_script o)) outs.

(** A run of consecutive bytes of the buffer. *)
Definition segment_of (bs s : list byte) : Prop :=
  exists o k : nat, s = firstn k (skipn o bs).

(** The cursor stands at byte [o] of the buffer. *)
Definition at_pos (o : nat) (pos : Z) : Prop := pos = 2 * Z.of_nat o.

(** The state of the output loop: the cursor at byte [o], the scripts read
    so far runs of the buffer. *)
Definition at_output (bs : list byte) (o : nat) (st : Z * list str) : Prop :=
  fst st = 2 * Z.of_nat o /\
  exists l, snd st = map hex l /\ Forall (segment_of bs) l.

(** The cursor after the version and the optional marker. *)
Definition start_pos (data : str) : Z :=
  if has_marker data 8 then 12 else 8.

(** The value the program binds to [input_count]. *)
Definition decoded_input_count (data : str) : result Z :=
  '(input_count, _) <- parse_varint data (start_pos data) ;;
  Ok input_count.

(** The value the program binds to [output_count]. *)
Definition decoded_output_count (data : str) : result Z :=
  '(input_count, pos) <- parse_varint data (start_pos data) ;;
  pos <- for_range (skip_input data) input_count pos ;;
  '(output_count, _) <- parse_varint data pos ;;
  Ok output_count.

(** [sys.maxsize] of a 64-bit CPython, the largest value of the platform
    size type. *)
Definition sys_maxsize : Z := 9223372036854775807.

(** ** Views of [parse_bhash_from_script] and the wire format *)

(** What [parse_bhash_from_script] does with [payload_bytes]. *)
Definition decode_payload (payload_bytes : list byte)
  : result (option bhash_record) :=
  if len payload_bytes <? 40 then Ok None else
  b0 <- py_index payload_bytes 0 ;;
  if negb (byte_val b0 =? 145) then Ok None else
  let payload := py_slice payload_bytes 0 40 in
  magic <- py_index payload 0 ;;
  content_type <- py_index payload 1 ;;
  let block_height := from_big (py_slice payload 2 6) in
  let asset_type := from_big (py_slice payload 6 8) in
  let bet_data_raw := py_slice payload 8 40 in
  bet_data <-
    for_each
      (fun bet_data i =>
         let val := from_little (py_slice bet_data_raw i (i + 2)) in
         Ok (bet_data ++ [val]))
      (py_range 0 32 2) [] ;;
  let hex_chars := lit "0123456789abcdef" in
  bet_dict <-
    for_each
      (fun bet_dict '(i, amount) =>
         if amount >? 0 then
           c <- py_index hex_chars i ;;
           Ok (dict_set bet_dict c amount)
         else Ok bet_dict)
      (enumerate bet_data) [] ;;
  Ok (Some {| magic := byte_val magic;
              content_type := byte_val content_type;
              block_height := block_height;
              asset_type := asset_type;
              bet_data := bet_data;
              bet_dict := bet_dict |}).

(** The nibble label of slot [i]. *)
Definition hex_digit (i : nat) : ascii := hex_char (Z.of_nat i).

(** The entries the slots [i, i+1, ...] with amounts [amounts] give. *)
Fixpoint bet_entries (i : nat) (amounts : list Z) : dict :=
  match amounts with
  | [] => []
  | a :: amounts' =>
      (if a =? 0 then [] else [(hex_digit i, a)])
      ++ bet_entries (S i) amounts'
  end.

(** The record of the 40-byte window [p], field by field as the format table
    gives them. *)
Definition byte_at (p : list byte) (i : nat) : Z := byte_val (nth i p x00).

Definition wire_bet_data (p : list byte) : list Z :=
  map (fun i => byte_at p (8 + 2 * i) + 256 * byte_at p (9 + 2 * i))
      (seq 0 16).

Definition wire_record (p : list byte) : bhash_record :=
  {| magic := byte_at p 0;
     content_type := byte_at p 1;
     block_height := byte_at p 2 * 16777216 + byte_at p 3 * 65536
                     + byte_at p 4 * 256 + byte_at p 5;
     asset_type := byte_at p 6 * 256 + byte_at p 7;
     bet_data := wire_bet_data p;
     bet_dict := bet_entries 0 (wire_bet_data p) |}.

(** The shape test of the decoder, on the bytes of a script. *)
Definition not_applicable (script : list byte) : bool :=
  match script with
  | [] => true
  | op :: after =>
      negb (byte_val op =? 106)
      || match after with
         | [] => true
         | push :: payload =>
             (len after <? 1 + byte_val push)
             || (byte_val push <? 40)
             || negb (byte_at payload 0 =? 145)
         end
  end.

Definition nonzero (a : Z) : bool := negb (a =? 0).

Definition sum (l : list Z) : Z := fold_right Z.add 0 l.

(** ** Sample data *)

Definition ex_version : list byte := [x01; x00; x00; x00].

Definition ex_in : tx_in :=
  {| in_txid := repeat xaa 32;
     in_vout := [x00; x00; x00; x00];
     in_script := [x51];
     in_sequence := [xff; xff; xff; xff] |}.

Definition ex_out : tx_out :=
  {| out_value := [xe8; x03; x00; x00; x00; x00; x00; x00];
     out_script := [x6a; x01; x02; x03; x04] |}.

Definition ex_locktime : list byte := [x00; x00; x00; x00].

Definition ex_stack : list (list byte) := [[x30; x45]; [x02]].

(** One input, one output of five script bytes, 66 bytes in all. *)
Definition ex_legacy : list byte :=
  legacy_tx ex_version [ex_in] [ex_out] ex_locktime.

(** The same transaction cut after the first byte of its output script. *)
Definition ex_cut : list byte := firstn 58 ex_legacy.

(** A version followed by the input count 2^64 - 1. *)
Definition ex_huge : list byte := ex_version ++ xff :: repeat xff 8.

(** The script of the scenario of the specification: content type 2, block
    height 100, asset type 2, ten units on slot 0. *)
Definition ex_payload : list byte :=
  [x91; x02; x00; x00; x00; x64; x00; x02; x0a; x00] ++ repeat x00 30.

Definition ex_script : list byte := x6a :: x28 :: ex_payload.

(** ** [get_asset_type_name] *)

(** [format(n, 'x')] for [n >= 0]: the hexadecimal digits of [n], lower case,
    without leading zeros; [fuel] bounds the number of digits. *)
Fixpoint hex_digits_fuel (fuel : nat) (n : Z) : str :=
  match fuel with
  | O => []
  | S fuel' =>
      if n <? 16 then [hex_char n]
      else hex_digits_fuel fuel' (n / 16) ++ [hex_char (n mod 16)]
  end.

Definition py_hex_digits (n : Z) : str :=
  hex_digits_fuel (S (Z.to_nat (Z.log2 n))) n.

(** [f"{n:04x}"]: the sign of a negative number, then the digits padded with
    zeros so that sign and digits take four characters at least. *)
Definition format_04x (n : Z) : str :=
  let sign := if n <? 0 then lit "-" else [] in
  let digits := py_hex_digits (Z.abs n) in
  sign ++ repeat "0"%char (4 - length sign - length digits) ++ digits.

(** The module-level dictionary [ASSET_TYPES]. *)
Definition ASSET_TYPES : list (Z * str) :=
  [(0, lit "BTC (Bitcoin)");
   (1, lit "BTC (Bitcoin - Satoshinet)");
   (2, lit "BHASH (BHASH Protocol Asset Type)")].

(** [d[k]] for a key that may be absent; [None] is [k not in d]. *)
Fixpoint int_dict_get (d : list (Z * str)) (k : Z) : option str :=
  match d with
  | [] => None
  | (k', v) :: d' => if k' =? k then Some v else int_dict_get d' k
  end.

(** [get_asset_type_name(asset_type)] *)
Definition get_asset_type_name (asset_type : Z) : str :=
  match int_dict_get ASSET_TYPES asset_type with
  | Some name => name
  | None =>
      if (3 <=? asset_type) && (asset_type <=? 65535) then
        lit "Reserved Extension (0x" ++ format_04x asset_type ++ lit ")"
      else
        lit "Unknown Type (0x" ++ format_04x asset_type ++ lit ")"
  end.

(** ** Upper-case text *)

(** The letters [a] to [f] in upper case, every other character as it is:
    what [str.upper] does to hexadecimal text. *)
Definition upper_af (c : ascii) : ascii :=
  let n := code c in
  if (97 <=? n) && (n <=? 102) then ascii_of_N (Z.to_N (n - 32)) else c.

Definition upper_text (s : str) : str := map upper_af s.

(** [d.get(k)] on a [bet_dict]. *)
Fixpoint dict_get (d : dict) (k : ascii) : option Z :=
  match d with
  | [] => None
  | (k', v) :: d' => if Ascii.eqb k' k then Some v else dict_get d' k
  end.

(** [result = f(x)] mapped over an outcome. *)
Definition result_map {A B : Type} (f : A -> B) (m : result A) : result B :=
  match m with
  | Ok a => Ok (f a)
  | Raise e => Raise e
  end.

(** ** Views of [int(s, 16)] *)

(** The optional [0x] prefix of [int(s, 16)], with one underscore allowed
    after it. *)
Definition int_strip_prefix (s : str) : str :=
  match s with
  | z :: x :: s' =>
      if (code z =? 48) && is_x x then
        match s' with
        | u :: s'' => if is_underscore u then s'' else s'
        | [] => s'
        end
      else s
  | _ => s
  end.

(** The digits of [int(s, 16)] and what may follow them. *)
Definition int_parse_digits (sign : Z) (s : str) : option Z :=
  match s with
  | c :: _ => if is_underscore c then None else
      match scan_digits s false None with
      | Some (v, tl) =>
          match drop_spaces tl with
          | [] => Some (sign * v)
          | _ :: _ => None
          end
      | None => None
      end
  | [] => None
  end.

(** The number read so far by the digit loop, zero before the first digit. *)
Definition acc_value (acc : option Z) : Z :=
  match acc with Some v => v | None => 0 end.

(** ** The bounds-checked walk of the specification *)

(** The walk as the specification words it, on the bytes of the buffer, with
    every advance and every read checked against the length of the buffer.
    [Raise ValueError] stands for its failure [TruncatedTransaction]. *)









(** A segregated-witness serialisation: at least one input, since a
    transaction without witness keeps the legacy format, and one well-formed
    witness stack per input. *)
Definition wf_segwit (version : list byte) (ins : list tx_in)
    (outs : list tx_out) (wits : list (list (list byte))) : bool :=
  wf_tx version ins outs && (0 <? length ins)%nat
  && (length wits =? length ins)%nat && forallb wf_stack wits.


(** ** Facts about the built-ins *)

Lemma len_nonneg {A : Type} (s : list A) : 0 <= len s.
Proof. unfold len. lia. Qed.

(** A slice with non-negative bounds is [firstn] after [skipn]. *)
Lemma py_slice_nat {A : Type} (s : list A) (i j : Z) (o k : nat) :
  i = Z.of_nat o -> j = i + Z.of_nat k ->
  py_slice s i j = firstn k (skipn o s).
Proof.
  intros -> ->. unfold py_slice, slice_index, len.
  destruct (Z.ltb_spec (Z.of_nat o) 0); [lia|].
  destruct (Z.ltb_spec (Z.of_nat o + Z.of_nat k) 0); [lia|].
  destruct (Nat.le_gt_cases o (length s)) as [Hle|Hgt].
  - rewrite (Z.min_l (Z.of_nat o)) by lia. rewrite Nat2Z.id.
    destruct (Nat.le_gt_cases (o + k) (length s)).
    + rewrite Z.min_l by lia. f_equal. lia.
    + rewrite Z.min_r by lia.
      rewrite (firstn_all2 (n := k)) by (rewrite length_skipn; lia).
      apply firstn_all2. rewrite length_skipn. lia.
  - rewrite !Z.min_r by lia. rewrite Z.sub_diag. cbn [Z.to_nat firstn].
    rewrite (skipn_all2 (n := o)) by lia. now rewrite firstn_nil.
Qed.

Lemma py_slice_from_nat {A : Type} (s : list A) (i : Z) (o : nat) :
  i = Z.of_nat o -> py_slice_from s i = skipn o s.
Proof.
  intros ->. unfold py_slice_from, slice_index, len.
  destruct (Z.ltb_spec (Z.of_nat o) 0); [lia|].
  destruct (Nat.le_gt_cases o (length s)).
  - rewrite Z.min_l by lia. now rewrite Nat2Z.id.
  - rewrite Z.min_r by lia. rewrite Nat2Z.id.
    rewrite skipn_all. symmetry. apply skipn_all2. lia.
Qed.

Lemma hex_length (bs : list byte) : length (hex bs) = (2 * length bs)%nat.
Proof.
  induction bs as [|b bs IH]; cbn [hex flat_map hex_of_byte app length];
    [reflexivity|].
  fold (hex bs). lia.
Qed.

Lemma len_hex (bs : list byte) : len (hex bs) = 2 * len bs.
Proof. unfold len. rewrite hex_length. lia. Qed.

Lemma hex_skipn (n : nat) (bs : list byte) :
  skipn (2 * n) (hex bs) = hex (skipn n bs).
Proof.
  revert bs. induction n as [|n IH]; intros bs; [reflexivity|].
  destruct bs as [|b bs]; [reflexivity|].
  replace (2 * S n)%nat with (S (S (2 * n))) by lia.
  cbn [hex flat_map hex_of_byte app skipn]. apply IH.
Qed.

Lemma hex_firstn (n : nat) (bs : list byte) :
  firstn (2 * n) (hex bs) = hex (firstn n bs).
Proof.
  revert bs. induction n as [|n IH]; intros bs; [reflexivity|].
  destruct bs as [|b bs]; [reflexivity|].
  replace (2 * S n)%nat with (S (S (2 * n))) by lia.
  cbn [hex flat_map hex_of_byte app firstn]. f_equal. f_equal. apply IH.
Qed.

(** Slicing the text at even positions is slicing the buffer. *)
Lemma slice_hex (bs : list byte) (i j : Z) (o k : nat) :
  i = 2 * Z.of_nat o -> j = i + 2 * Z.of_nat k ->
  py_slice (hex bs) i j = hex (firstn k (skipn o bs)).
Proof.
  intros Hi Hj.
  rewrite (py_slice_nat _ i j (2 * o) (2 * k)) by lia.
  now rewrite hex_skipn, hex_firstn.
Qed.

Lemma int16_hex_byte (b : byte) : py_int16 (hex [b]) = Some (byte_val b).
Proof. destruct b; vm_compute; reflexivity. Qed.

Lemma byte_val_range (b : byte) : 0 <= byte_val b < 256.
Proof. destruct b; vm_compute; split; congruence. Qed.

Lemma byte_val_of_Z (v : Z) : 0 <= v < 256 -> byte_val (byte_of_Z v) = v.
Proof.
  intros H. unfold byte_val, byte_of_Z.
  destruct (Byte.of_N (Z.to_N v)) as [b|] eqn:E.
  - apply Byte.to_of_N in E. rewrite E. lia.
  - apply Byte.of_N_None_iff in E. lia.
Qed.

Lemma fromhex_byte (b : byte) (s : str) :
  py_fromhex (hex_of_byte b ++ s)
  = match py_fromhex s with Some bs => Some (b :: bs) | None => None end.
Proof. destruct b; reflexivity. Qed.

Lemma fromhex_hex (bs : list byte) : py_fromhex (hex bs) = Some bs.
Proof.
  induction bs as [|b bs IH]; [reflexivity|].
  change (hex (b :: bs)) with (hex_of_byte b ++ hex bs).
  now rewrite fromhex_byte, IH.
Qed.

Lemma bytes_fromhex_hex (bs : list byte) : bytes_fromhex (hex bs) = Ok bs.
Proof. unfold bytes_fromhex. now rewrite fromhex_hex. Qed.

(** ** [parse_varint] on the text of a byte buffer *)

Lemma skipn_cons_tail {A : Type} (o : nat) (s : list A) (a : A) (r : list A) :
  skipn o s = a :: r -> skipn (o + 1) s = r.
Proof.
  intros H. rewrite Nat.add_comm, <- skipn_skipn, H. reflexivity.
Qed.

Lemma parse_varint_end (bs : list byte) (pos : Z) (o : nat) :
  pos = 2 * Z.of_nat o -> skipn o bs = [] ->
  parse_varint (hex bs) pos = Raise ValueError.
Proof.
  intros Hp He. unfold parse_varint.
  rewrite (slice_hex bs pos (pos + 2) o 1) by lia.
  rewrite He. reflexivity.
Qed.

Lemma parse_varint_byte (bs : list byte) (pos : Z) (o : nat) (b : byte)
    (rest : list byte) :
  pos = 2 * Z.of_nat o -> skipn o bs = b :: rest ->
  parse_varint (hex bs) pos
  = Ok (varint_value b rest, 2 * Z.of_nat (o + 1 + varint_width b)).
Proof.
  intros Hp Hs. unfold parse_varint.
  rewrite (slice_hex bs pos (pos + 2) o 1) by lia.
  rewrite Hs. cbn [firstn]. unfold int16. rewrite int16_hex_byte.
  cbn [bind]. unfold varint_value, varint_width.
  pose proof (skipn_cons_tail _ _ _ _ Hs) as Hr.
  destruct (byte_val b <? 253); [f_equal; f_equal; lia|].
  destruct (byte_val b =? 253).
  { rewrite (slice_hex bs _ _ (o + 1) 2) by lia.
    rewrite Hr, bytes_fromhex_hex. cbn [bind]. f_equal. f_equal. lia. }
  destruct (byte_val b =? 254).
  { rewrite (slice_hex bs _ _ (o + 1) 4) by lia.
    rewrite Hr, bytes_fromhex_hex. cbn [bind]. f_equal. f_equal. lia. }
  rewrite (slice_hex bs _ _ (o + 1) 8) by lia.
  rewrite Hr, bytes_fromhex_hex. cbn [bind]. f_equal. f_equal. lia.
Qed.

(** The encoder is read back, whatever surrounds the encoding. *)
Lemma from_little_to_little (n : nat) (v : Z) :
  0 <= v < 256 ^ Z.of_nat n -> from_little (to_little n v) = v.
Proof.
  revert v. induction n as [|n IH]; intros v Hv.
  - cbn in *. lia.
  - cbn [to_little from_little].
    rewrite byte_val_of_Z by (apply Z.mod_pos_bound; lia).
    rewrite IH.
    + pose proof (Z.div_mod v 256). lia.
    + rewrite Nat2Z.inj_succ, Z.pow_succ_r in Hv by lia.
      split; [apply Z.div_pos; lia|].
      apply Z.div_lt_upper_bound; lia.
Qed.

Lemma to_little_length (n : nat) (v : Z) : length (to_little n v) = n.
Proof. revert v. induction n; intros; cbn; auto. Qed.

Lemma varint_decode_encode (v : Z) (rest : list byte) :
  0 <= v < varint_max ->
  exists b p,
    encode_varint v = b :: p /\ length p = varint_width b /\
    varint_value b (p ++ rest) = v.
Proof.
  intros Hv. unfold encode_varint, varint_max in *.
  destruct (Z.ltb_spec v 253).
  { exists (byte_of_Z v), []. unfold varint_width, varint_value.
    rewrite byte_val_of_Z by lia.
    destruct (Z.ltb_spec v 253); [auto|lia]. }
  destruct (Z.ltb_spec v 65536).
  { exists xfd, (to_little 2 v). split; [reflexivity|]. split; [reflexivity|].
    unfold varint_value, varint_width. cbn [byte_val]. 
    change (firstn _ (to_little 2 v ++ rest))
      with (to_little 2 v). apply from_little_to_little. cbn. lia. }
  destruct (Z.ltb_spec v 4294967296).
  { exists xfe, (to_little 4 v). split; [reflexivity|]. split; [reflexivity|].
    unfold varint_value, varint_width.
    change (firstn _ (to_little 4 v ++ rest))
      with (to_little 4 v). apply from_little_to_little. cbn. lia. }
  exists xff, (to_little 8 v). split; [reflexivity|]. split; [reflexivity|].
  unfold varint_value, varint_width.
  change (firstn _ (to_little 8 v ++ rest))
    with (to_little 8 v). apply from_little_to_little. cbn. lia.
Qed.

Lemma parse_varint_encode (bs : list byte) (pos : Z) (o : nat) (v : Z)
    (rest : list byte) :
  pos = 2 * Z.of_nat o -> skipn o bs = encode_varint v ++ rest ->
  0 <= v < varint_max ->
  parse_varint (hex bs) pos
  = Ok (v, 2 * Z.of_nat (o + length (encode_varint v))).
Proof.
  intros Hp Hs Hv.
  destruct (varint_decode_encode v rest Hv) as (b & p & He & Hl & Hval).
  rewrite He in Hs |- *. cbn [app] in Hs.
  rewrite (parse_varint_byte bs pos o b (p ++ rest) Hp Hs).
  rewrite Hval. cbn [length]. rewrite Hl. f_equal. f_equal. lia.
Qed.

(** ** Loops *)

Section LoopFacts.
Context {S : Type} (body : S -> result S).

Lemma iter_nat_add (a b : nat) (s : S) :
  iter_nat body (a + b) s = bind (iter_nat body a s) (iter_nat body b).
Proof.
  revert s. induction a as [|a IH]; intros s; [reflexivity|].
  cbn [Nat.add iter_nat]. destruct (body s); cbn [bind]; auto.
Qed.

Lemma iter_pos_nat (p : positive) (s : S) :
  iter_pos body p s = iter_nat body (Pos.to_nat p) s.
Proof.
  revert s. induction p as [p IH|p IH|]; intros s; cbn [iter_pos].
  - rewrite Pos2Nat.inj_xI. cbn [iter_nat].
    destruct (body s) as [s'|]; cbn [bind]; [|reflexivity].
    replace (2 * Pos.to_nat p)%nat with (Pos.to_nat p + Pos.to_nat p)%nat
      by lia.
    rewrite iter_nat_add, IH.
    destruct (iter_nat body (Pos.to_nat p) s'); cbn [bind]; auto.
  - rewrite Pos2Nat.inj_xO.
    replace (2 * Pos.to_nat p)%nat with (Pos.to_nat p + Pos.to_nat p)%nat
      by lia.
    rewrite iter_nat_add, IH.
    destruct (iter_nat body (Pos.to_nat p) s); cbn [bind]; auto.
  - rewrite Pos2Nat.inj_1. cbn [iter_nat].
    destruct (body s); reflexivity.
Qed.

Lemma for_range_to_nat (n : Z) (s : S) :
  for_range body n s = iter_nat body (Z.to_nat n) s.
Proof.
  destruct n as [|p|p]; cbn [for_range Z.to_nat]; try reflexivity.
  apply iter_pos_nat.
Qed.

Lemma for_range_nat (n : nat) (s : S) :
  for_range body (Z.of_nat n) s = iter_nat body n s.
Proof. rewrite for_range_to_nat. now rewrite Nat2Z.id. Qed.

Lemma for_range_len {A : Type} (xs : list A) (s : S) :
  for_range body (len xs) s = iter_nat body (length xs) s.
Proof. apply for_range_nat. Qed.
End LoopFacts.

(** ** Well-formed transactions *)

Lemma skipn_app_length {A : Type} (a b : list A) (o : nat) :
  o = length a -> skipn o (a ++ b) = b.
Proof.
  intros ->. rewrite skipn_app, Nat.sub_diag, skipn_all. reflexivity.
Qed.

Lemma firstn_app_length {A : Type} (a b : list A) (k : nat) :
  k = length a -> firstn k (a ++ b) = a.
Proof.
  intros ->. rewrite firstn_app, Nat.sub_diag, firstn_all.
  cbn [firstn]. apply app_nil_r.
Qed.

Lemma skip_input_ok (pre : list byte) (i : tx_in) (post : list byte) :
  wf_in i = true ->
  skip_input (hex (pre ++ ser_in i ++ post)) (2 * Z.of_nat (length pre))
  = Ok (2 * Z.of_nat (length (pre ++ ser_in i))).
Proof.
  unfold wf_in. rewrite !andb_true_iff, !Nat.eqb_eq, Z.ltb_lt.
  intros [[[Ht Hv] Hq] Hs]. unfold skip_input.
  rewrite (parse_varint_encode _ _ (length pre + 36) (len (in_script i))
             (in_script i ++ in_sequence i ++ post)).
  - cbn [bind]. f_equal. unfold ser_in, len. rewrite !length_app. lia.
  - lia.
  - unfold ser_in.
    replace (pre ++ (in_txid i ++ in_vout i ++ encode_varint (len (in_script i))
                     ++ in_script i ++ in_sequence i) ++ post)
      with ((pre ++ in_txid i ++ in_vout i)
            ++ encode_varint (len (in_script i))
            ++ in_script i ++ in_sequence i ++ post)
      by (now rewrite <- !app_assoc).
    apply skipn_app_length. rewrite !length_app. lia.
  - split; [apply len_nonneg|assumption].
Qed.

Lemma skip_inputs_ok (ins : list tx_in) (pre post : list byte) :
  forallb wf_in ins = true ->
  iter_nat (skip_input (hex (pre ++ flat_map ser_in ins ++ post)))
    (length ins) (2 * Z.of_nat (length pre))
  = Ok (2 * Z.of_nat (length (pre ++ flat_map ser_in ins))).
Proof.
  revert pre. induction ins as [|i ins IH]; intros pre Hwf.
  - cbn. now rewrite app_nil_r.
  - cbn [forallb] in Hwf. apply andb_true_iff in Hwf as [Hi Hins].
    cbn [length iter_nat flat_map].
    rewrite <- (app_assoc (ser_in i)).
    rewrite (skip_input_ok pre i _ Hi). cbn [bind].
    rewrite (app_assoc pre (ser_in i)).
    rewrite (IH (pre ++ ser_in i) Hins).
    now rewrite <- !app_assoc.
Qed.

Lemma read_output_ok (pre : list byte) (o : tx_out) (post : list byte)
    (acc : list str) :
  wf_out o = true ->
  read_output (hex (pre ++ ser_out o ++ post))
    (2 * Z.of_nat (length pre), acc)
  = Ok (2 * Z.of_nat (length (pre ++ ser_out o)),
        acc ++ [hex (out_script o)]).
Proof.
  unfold wf_out. rewrite andb_true_iff, Nat.eqb_eq, Z.ltb_lt.
  intros [Hv Hs]. unfold read_output.
  assert (Hbs : pre ++ ser_out o ++ post
                = (pre ++ out_value o) ++ encode_varint (len (out_script o))
                  ++ out_script o ++ post)
    by (unfold ser_out; now rewrite <- !app_assoc).
  rewrite (parse_varint_encode _ _ (length pre + 8) (len (out_script o))
             (out_script o ++ post)).
  - cbn [bind].
    rewrite (slice_hex _ _ _
               (length pre + 8 + length (encode_varint (len (out_script o))))
               (length (out_script o))) by (unfold len; lia).
    rewrite Hbs, app_assoc.
    rewrite (skipn_app_length _ (out_script o ++ post))
      by (rewrite !length_app; lia).
    rewrite firstn_app_length by reflexivity.
    f_equal. f_equal. unfold ser_out, len. rewrite !length_app. lia.
  - lia.
  - rewrite Hbs. apply skipn_app_length. rewrite length_app. lia.
  - split; [apply len_nonneg|assumption].
Qed.

Lemma read_outputs_ok (outs : list tx_out) (pre post : list byte)
    (acc : list str) :
  forallb wf_out outs = true ->
  iter_nat (read_output (hex (pre ++ flat_map ser_out outs ++ post)))
    (length outs) (2 * Z.of_nat (length pre), acc)
  = Ok (2 * Z.of_nat (length (pre ++ flat_map ser_out outs)),
        acc ++ map (fun o => hex (out_script o)) outs).
Proof.
  revert pre acc. induction outs as [|o outs IH]; intros pre acc Hwf.
  - cbn. now rewrite !app_nil_r.
  - cbn [forallb] in Hwf. apply andb_true_iff in Hwf as [Ho Houts].
    cbn [length iter_nat flat_map map].
    rewrite <- (app_assoc (ser_out o)).
    rewrite (read_output_ok pre o _ acc Ho). cbn [bind].
    rewrite (app_assoc pre (ser_out o)).
    rewrite (IH (pre ++ ser_out o) _ Houts).
    now rewrite <- !app_assoc.
Qed.

Lemma skip_witness_item_ok (pre item post : list byte) :
  (len item <? varint_max) = true ->
  skip_witness_item (hex (pre ++ ser_item item ++ post))
    (2 * Z.of_nat (length pre))
  = Ok (2 * Z.of_nat (length (pre ++ ser_item item))).
Proof.
  rewrite Z.ltb_lt. intros Hs. unfold skip_witness_item.
  rewrite (parse_varint_encode _ _ (length pre) (len item) (item ++ post)).
  - cbn [bind]. f_equal. unfold ser_item, len. rewrite !length_app. lia.
  - reflexivity.
  - unfold ser_item. rewrite <- app_assoc. now apply skipn_app_length.
  - split; [apply len_nonneg|assumption].
Qed.

Lemma skip_witness_items_ok (stack : list (list byte)) (pre post : list byte) :
  forallb (fun item => len item <? varint_max) stack = true ->
  iter_nat (skip_witness_item (hex (pre ++ flat_map ser_item stack ++ post)))
    (length stack) (2 * Z.of_nat (length pre))
  = Ok (2 * Z.of_nat (length (pre ++ flat_map ser_item stack))).
Proof.
  revert pre. induction stack as [|item stack IH]; intros pre Hwf.
  - cbn. now rewrite app_nil_r.
  - cbn [forallb] in Hwf. apply andb_true_iff in Hwf as [Hi Hst].
    cbn [length iter_nat flat_map].
    rewrite <- (app_assoc (ser_item item)).
    rewrite (skip_witness_item_ok pre item _ Hi). cbn [bind].
    rewrite (app_assoc pre (ser_item item)).
    rewrite (IH (pre ++ ser_item item) Hst).
    now rewrite <- !app_assoc.
Qed.

Lemma skip_witness_ok (pre : list byte) (stack : list (list byte))
    (post : list byte) :
  wf_stack stack = true ->
  skip_witness (hex (pre ++ ser_stack stack ++ post))
    (2 * Z.of_nat (length pre))
  = Ok (2 * Z.of_nat (length (pre ++ ser_stack stack))).
Proof.
  unfold wf_stack. rewrite andb_true_iff, Z.ltb_lt. intros [Hn Hit].
  unfold skip_witness.
  rewrite (parse_varint_encode _ _ (length pre) (len stack)
             (flat_map ser_item stack ++ post)).
  - cbn [bind]. rewrite for_range_len.
    unfold ser_stack. rewrite <- app_assoc, app_assoc.
    replace (2 * Z.of_nat (length pre + length (encode_varint (len stack))))
      with (2 * Z.of_nat (length (pre ++ encode_varint (len stack))))
      by (rewrite length_app; lia).
    rewrite (skip_witness_items_ok stack _ post Hit).
    now rewrite <- !app_assoc.
  - reflexivity.
  - unfold ser_stack. rewrite <- app_assoc. now apply skipn_app_length.
  - split; [apply len_nonneg|assumption].
Qed.

Lemma skip_witnesses_ok (wits : list (list (list byte)))
    (pre post : list byte) :
  forallb wf_stack wits = true ->
  iter_nat (skip_witness (hex (pre ++ flat_map ser_stack wits ++ post)))
    (length wits) (2 * Z.of_nat (length pre))
  = Ok (2 * Z.of_nat (length (pre ++ flat_map ser_stack wits))).
Proof.
  revert pre. induction wits as [|st wits IH]; intros pre Hwf.
  - cbn. now rewrite app_nil_r.
  - cbn [forallb] in Hwf. apply andb_true_iff in Hwf as [Hs Hw].
    cbn [length iter_nat flat_map].
    rewrite <- (app_assoc (ser_stack st)).
    rewrite (skip_witness_ok pre st _ Hs). cbn [bind].
    rewrite (app_assoc pre (ser_stack st)).
    rewrite (IH (pre ++ ser_stack st) Hw).
    now rewrite <- !app_assoc.
Qed.

(** ** The marker test *)

Lemma str_eqb_hex_00 (b : byte) :
  str_eqb (hex [b]) (lit "00") = (byte_val b =? 0).
Proof. destruct b; reflexivity. Qed.

Lemma str_eqb_hex_01 (b : byte) :
  str_eqb (hex [b]) (lit "01") = (byte_val b =? 1).
Proof. destruct b; reflexivity. Qed.

Lemma has_marker_hex (bs : list byte) :
  has_marker (hex bs) 8 = marker_bytes bs.
Proof.
  unfold has_marker, marker_bytes.
  rewrite (slice_hex bs 8 (8 + 2) 4 1) by lia.
  rewrite (slice_hex bs (8 + 2) (8 + 4) 5 1) by lia.
  destruct (skipn 4 bs) as [|b0 r] eqn:E; [reflexivity|].
  pose proof (skipn_cons_tail 4 bs b0 r E) as E'.
  change (4 + 1)%nat with 5%nat in E'. rewrite E'.
  cbn [firstn]. rewrite str_eqb_hex_00.
  destruct r as [|b1 r]; [apply andb_false_r|].
  cbn [firstn]. now rewrite str_eqb_hex_01.
Qed.

(** The first byte of an encoding is the value itself when that is small. *)
Lemma encode_varint_head (v : Z) :
  0 <= v < varint_max ->
  exists b p, encode_varint v = b :: p /\
              (byte_val b = v \/ 253 <= byte_val b).
Proof.
  intros Hv. destruct (varint_decode_encode v [] Hv) as (b & p & He & _ & Hval).
  exists b, p. split; [assumption|].
  unfold varint_value in Hval.
  destruct (Z.ltb_spec (byte_val b) 253); [left; assumption|right; lia].
Qed.

(** ** The walk after the marker test *)

Lemma extract_walk (data : str) :
  extract_vout_scripts data
  = walk data (has_marker data 8) (if has_marker data 8 then 12 else 8).
Proof.
  unfold extract_vout_scripts, walk. cbn [Z.add Pos.add].
  destruct (has_marker data 8); reflexivity.
Qed.

Lemma walk_ok (pre : list byte) (ins : list tx_in) (outs : list tx_out)
    (rest : list byte) (is_segwit : bool) :
  len ins < varint_max -> len outs < varint_max ->
  forallb wf_in ins = true -> forallb wf_out outs = true ->
  (is_segwit = true ->
   exists wits tail, rest = flat_map ser_stack wits ++ tail /\
                     length wits = length ins /\
                     forallb wf_stack wits = true) ->
  walk (hex (pre ++ encode_varint (len ins) ++ flat_map ser_in ins
             ++ encode_varint (len outs) ++ flat_map ser_out outs ++ rest))
       is_segwit (2 * Z.of_nat (length pre))
  = Ok (scripts_of outs).
Proof.
  intros Hk Hn Hins Houts Hw.
  remember (pre ++ encode_varint (len ins) ++ flat_map ser_in ins
            ++ encode_varint (len outs) ++ flat_map ser_out outs ++ rest)
    as bs eqn:Hbs.
  unfold walk.
  (* input count *)
  rewrite (parse_varint_encode bs _ (length pre) (len ins)
             (flat_map ser_in ins ++ encode_varint (len outs)
              ++ flat_map ser_out outs ++ rest));
    [ | reflexivity | subst bs; now apply skipn_app_length
      | split; [apply len_nonneg|assumption] ].
  cbn [bind]. rewrite for_range_len.
  (* inputs *)
  set (p1 := pre ++ encode_varint (len ins)).
  assert (H1 : bs = p1 ++ flat_map ser_in ins
                    ++ (encode_varint (len outs) ++ flat_map ser_out outs
                        ++ rest))
    by (subst bs p1; now rewrite <- !app_assoc).
  replace (length pre + length (encode_varint (len ins)))%nat
    with (length p1) by (subst p1; now rewrite length_app).
  rewrite H1 at 1. rewrite (skip_inputs_ok ins p1 _ Hins). cbn [bind].
  (* output count *)
  set (p2 := p1 ++ flat_map ser_in ins).
  rewrite (parse_varint_encode bs _ (length p2) (len outs)
             (flat_map ser_out outs ++ rest));
    [ | reflexivity
      | rewrite H1, app_assoc; now apply skipn_app_length
      | split; [apply len_nonneg|assumption] ].
  cbn [bind]. rewrite for_range_len.
  (* outputs *)
  set (p3 := p2 ++ encode_varint (len outs)).
  assert (H3 : bs = p3 ++ flat_map ser_out outs ++ rest)
    by (subst bs p3 p2 p1; now rewrite <- !app_assoc).
  replace (length p2 + length (encode_varint (len outs)))%nat
    with (length p3) by (subst p3; now rewrite length_app).
  rewrite H3 at 1. rewrite (read_outputs_ok outs p3 rest [] Houts).
  cbn [bind app].
  (* witnesses *)
  destruct is_segwit; [|reflexivity].
  destruct (Hw eq_refl) as (wits & tail & Hr & Hl & Hwf).
  rewrite for_range_len, <- Hl.
  set (p4 := p3 ++ flat_map ser_out outs).
  assert (H4 : bs = p4 ++ flat_map ser_stack wits ++ tail)
    by (subst p4; rewrite H3, Hr; now rewrite <- !app_assoc).
  rewrite H4. rewrite (skip_witnesses_ok wits p4 tail Hwf). reflexivity.
Qed.

Lemma wf_tx_parts (version : list byte) (ins : list tx_in)
    (outs : list tx_out) :
  wf_tx version ins outs = true ->
  length version = 4%nat /\ len ins < varint_max /\ len outs < varint_max /\
  forallb wf_in ins = true /\ forallb wf_out outs = true.
Proof.
  unfold wf_tx. rewrite !andb_true_iff, Nat.eqb_eq, !Z.ltb_lt. tauto.
Qed.

(** A legacy serialisation shows the marker only with no input and exactly
    one output. *)
Lemma marker_legacy (version : list byte) (ins : list tx_in)
    (outs : list tx_out) (tail : list byte) :
  wf_tx version ins outs = true ->
  (length ins = 0%nat -> length outs <> 1%nat) ->
  marker_bytes (legacy_tx version ins outs tail) = false.
Proof.
  intros Hwf Hk. apply wf_tx_parts in Hwf as (Hv & Hi & Ho & _ & _).
  unfold marker_bytes, legacy_tx.
  rewrite skipn_app_length by (now rewrite Hv).
  destruct (encode_varint_head (len ins)) as (b & p & He & Hb);
    [split; [apply len_nonneg|assumption]|].
  destruct ins as [|i ins].
  - cbn [flat_map app]. change (encode_varint (len [])) with [x00].
    cbn [app].
    destruct (encode_varint_head (len outs)) as (b1 & p1 & He1 & Hb1);
      [split; [apply len_nonneg|assumption]|].
    rewrite He1. cbn [app].
    assert (byte_val b1 <> 1).
    { destruct Hb1 as [Hb1|Hb1]; [|lia].
      rewrite Hb1. unfold len. specialize (Hk eq_refl). lia. }
    destruct (Z.eqb_spec (byte_val b1) 1); [contradiction|].
    apply andb_false_r.
  - rewrite He. cbn [app].
    assert (byte_val b <> 0).
    { destruct Hb as [Hb|Hb]; [|lia].
      rewrite Hb. unfold len. cbn [length]. lia. }
    destruct (p ++ flat_map ser_in (i :: ins) ++ encode_varint (len outs)
              ++ flat_map ser_out outs ++ tail); [reflexivity|].
    destruct (Z.eqb_spec (byte_val b) 0); [contradiction|reflexivity].
Qed.

Lemma extract_legacy_ok (version : list byte) (ins : list tx_in)
    (outs : list tx_out) (tail : list byte) :
  wf_tx version ins outs = true ->
  (length ins = 0%nat -> length outs <> 1%nat) ->
  extract_vout_scripts (hex (legacy_tx version ins outs tail))
  = Ok (scripts_of outs).
Proof.
  intros Hwf Hk. rewrite extract_walk, has_marker_hex.
  rewrite (marker_legacy _ _ _ _ Hwf Hk).
  apply wf_tx_parts in Hwf as (Hv & Hi & Ho & Hins & Houts).
  unfold legacy_tx.
  replace 8 with (2 * Z.of_nat (length version)) by (rewrite Hv; reflexivity).
  apply walk_ok; auto. discriminate.
Qed.

Lemma extract_segwit_ok (version : list byte) (ins : list tx_in)
    (outs : list tx_out) (wits : list (list (list byte)))
    (tail : list byte) :
  wf_tx version ins outs = true ->
  length wits = length ins -> forallb wf_stack wits = true ->
  extract_vout_scripts (hex (segwit_tx version ins outs wits tail))
  = Ok (scripts_of outs).
Proof.
  intros Hwf Hl Hw. rewrite extract_walk, has_marker_hex.
  apply wf_tx_parts in Hwf as (Hv & Hi & Ho & Hins & Houts).
  assert (Hm : marker_bytes (segwit_tx version ins outs wits tail) = true).
  { unfold marker_bytes, segwit_tx.
    rewrite skipn_app_length by (now rewrite Hv). reflexivity. }
  rewrite Hm. unfold segwit_tx.
  rewrite (app_assoc version).
  replace 12 with (2 * Z.of_nat (length (version ++ [x00; x01])))
    by (rewrite length_app, Hv; reflexivity).
  apply walk_ok; auto.
  intros _. exists wits, tail. auto.
Qed.

(** ** The walk on an arbitrary buffer *)

Lemma parse_varint_hex (bs : list byte) (o : nat) :
  parse_varint (hex bs) (2 * Z.of_nat o)
  = match skipn o bs with
    | [] => Raise ValueError
    | b :: rest =>
        Ok (varint_value b rest, 2 * Z.of_nat (o + 1 + varint_width b))
    end.
Proof.
  destruct (skipn o bs) as [|b rest] eqn:E.
  - now apply (parse_varint_end bs _ o).
  - now apply (parse_varint_byte bs _ o).
Qed.

Lemma from_little_bound (bs : list byte) :
  0 <= from_little bs < 256 ^ len bs.
Proof.
  induction bs as [|b bs IH].
  - cbn. lia.
  - cbn [from_little]. unfold len in *. cbn [length].
    rewrite Nat2Z.inj_succ, Z.pow_succ_r by lia.
    pose proof (byte_val_range b). lia.
Qed.

Lemma varint_width_le (b : byte) : (varint_width b <= 8)%nat.
Proof.
  unfold varint_width.
  destruct (byte_val b <? 253), (byte_val b =? 253), (byte_val b =? 254); lia.
Qed.

(** A decoded value is never negative and never reaches 2^64. *)
Lemma varint_value_range (b : byte) (rest : list byte) :
  0 <= varint_value b rest < varint_max.
Proof.
  unfold varint_value, varint_max.
  destruct (Z.ltb_spec (byte_val b) 253).
  - pose proof (byte_val_range b). lia.
  - pose proof (from_little_bound (firstn (varint_width b) rest)) as Hb.
    assert (len (firstn (varint_width b) rest) <= 8).
    { unfold len. rewrite length_firstn.
      pose proof (varint_width_le b). lia. }
    assert (256 ^ len (firstn (varint_width b) rest) <= 256 ^ 8)
      by (apply Z.pow_le_mono_r; [lia|assumption]).
    change (256 ^ 8) with 18446744073709551616 in *. lia.
Qed.

Lemma skipn_nonempty {A : Type} (o : nat) (s : list A) (a : A) (r : list A) :
  skipn o s = a :: r -> (o < length s)%nat.
Proof.
  intros H. destruct (Nat.le_gt_cases (length s) o) as [Hle|]; [|assumption].
  rewrite skipn_all2 in H by assumption. discriminate.
Qed.

Section Progress.
Variable bs : list byte.
Context {S : Type}.
Variable body : S -> result S.
(** [at_offset o s]: the cursor of state [s] is at byte [o]. *)
Variable at_offset : nat -> S -> Prop.

(** One step either raises [ValueError], or needed a byte inside the
    buffer and moved the cursor forward. *)
Hypothesis step :
  forall o s, at_offset o s ->
    body s = Raise ValueError \/
    exists o' s', body s = Ok s' /\ at_offset o' s' /\
                  (o < o')%nat /\ (o < length bs)%nat.

Lemma iter_progress (n : nat) :
  forall o s, at_offset o s ->
    iter_nat body n s = Raise ValueError \/
    exists o' s', iter_nat body n s = Ok s' /\ at_offset o' s' /\
                  (o + n <= o')%nat /\
                  (0 < n -> o + n <= length bs)%nat.
Proof.
  induction n as [|n IH]; intros o s Hs.
  - right. exists o, s. cbn. repeat split; auto; lia.
  - cbn [iter_nat].
    destruct (step o s Hs) as [->|(o1 & s1 & -> & H1 & Hlt & Hin)];
      [now left|].
    cbn [bind].
    destruct (IH o1 s1 H1) as [->|(o2 & s2 & -> & H2 & Hle & Hb)];
      [now left|].
    right. exists o2, s2. repeat split; auto; [lia|].
    intros _. destruct n; lia.
Qed.
End Progress.

Lemma skip_input_step (bs : list byte) (o : nat) (pos : Z) :
  at_pos o pos ->
  skip_input (hex bs) pos = Raise ValueError \/
  exists o' pos', skip_input (hex bs) pos = Ok pos' /\ at_pos o' pos' /\
                  (o < o')%nat /\ (o < length bs)%nat.
Proof.
  unfold at_pos. intros ->. unfold skip_input.
  replace (2 * Z.of_nat o + 64 + 8) with (2 * Z.of_nat (o + 36)) by lia.
  rewrite parse_varint_hex.
  destruct (skipn (o + 36) bs) as [|b rest] eqn:E; [now left|right].
  pose proof (varint_value_range b rest) as Hv.
  apply skipn_nonempty in E.
  exists (o + 36 + 1 + varint_width b + Z.to_nat (varint_value b rest) + 4)%nat.
  eexists. cbn [bind]. split; [reflexivity|]. split; lia.
Qed.

(** One output step, on any buffer: it raises exactly when the byte that
    starts the script length is missing; otherwise it appends the script,
    cut where the buffer ends. *)
Lemma read_output_hex (bs : list byte) (o : nat) (acc : list str) :
  read_output (hex bs) (2 * Z.of_nat o, acc)
  = match skipn (o + 8) bs with
    | [] => Raise ValueError
    | b :: rest =>
        let n := Z.to_nat (varint_value b rest) in
        let o' := (o + 8 + 1 + varint_width b)%nat in
        Ok (2 * Z.of_nat (o' + n), acc ++ [hex (firstn n (skipn o' bs))])
    end.
Proof.
  unfold read_output.
  replace (2 * Z.of_nat o + 16) with (2 * Z.of_nat (o + 8)) by lia.
  rewrite parse_varint_hex.
  destruct (skipn (o + 8) bs) as [|b rest] eqn:E; [reflexivity|].
  pose proof (varint_value_range b rest) as Hv.
  cbn [bind]. cbv zeta.
  rewrite (slice_hex bs _ _ (o + 8 + 1 + varint_width b)
             (Z.to_nat (varint_value b rest))) by lia.
  f_equal. f_equal. lia.
Qed.

Lemma read_output_step (bs : list byte) (o : nat) (st : Z * list str) :
  at_output bs o st ->
  read_output (hex bs) st = Raise ValueError \/
  exists o' st', read_output (hex bs) st = Ok st' /\ at_output bs o' st' /\
                 (o < o')%nat /\ (o < length bs)%nat.
Proof.
  destruct st as [pos acc]. unfold at_output. cbn [fst snd].
  intros [-> (l & -> & Hl)]. rewrite read_output_hex.
  destruct (skipn (o + 8) bs) as [|b rest] eqn:E; [now left|right].
  apply skipn_nonempty in E. cbv zeta.
  eexists. eexists. split; [reflexivity|]. cbn [fst snd].
  split; [split; [reflexivity|]|lia].
  exists (l ++ [firstn (Z.to_nat (varint_value b rest))
                  (skipn (o + 8 + 1 + varint_width b) bs)]).
  split; [now rewrite map_app|].
  apply Forall_app. split; [assumption|].
  constructor; [|constructor]. eexists. eexists. reflexivity.
Qed.

Lemma skip_witness_item_step (bs : list byte) (o : nat) (pos : Z) :
  at_pos o pos ->
  skip_witness_item (hex bs) pos = Raise ValueError \/
  exists o' pos', skip_witness_item (hex bs) pos = Ok pos' /\
                  at_pos o' pos' /\ (o < o')%nat /\ (o < length bs)%nat.
Proof.
  unfold at_pos. intros ->. unfold skip_witness_item.
  rewrite parse_varint_hex.
  destruct (skipn o bs) as [|b rest] eqn:E; [now left|right].
  pose proof (varint_value_range b rest) as Hv.
  apply skipn_nonempty in E.
  exists (o + 1 + varint_width b + Z.to_nat (varint_value b rest))%nat.
  eexists. cbn [bind]. split; [reflexivity|]. split; lia.
Qed.

Lemma skip_witness_step (bs : list byte) (o : nat) (pos : Z) :
  at_pos o pos ->
  skip_witness (hex bs) pos = Raise ValueError \/
  exists o' pos', skip_witness (hex bs) pos = Ok pos' /\
                  at_pos o' pos' /\ (o < o')%nat /\ (o < length bs)%nat.
Proof.
  unfold at_pos. intros ->. unfold skip_witness.
  rewrite parse_varint_hex.
  destruct (skipn o bs) as [|b rest] eqn:E; [now left|].
  apply skipn_nonempty in E. cbn [bind]. rewrite for_range_to_nat.
  destruct (iter_progress bs (skip_witness_item (hex bs)) at_pos
              (skip_witness_item_step bs)
              (Z.to_nat (varint_value b rest))
              (o + 1 + varint_width b)%nat
              (2 * Z.of_nat (o + 1 + varint_width b)) eq_refl)
    as [->|(o' & pos' & -> & Hat & Hle & _)]; [now left|right].
  exists o', pos'. repeat split; auto; lia.
Qed.

(** Every outcome of the walk on the text of a buffer. *)
Lemma walk_outcome (bs : list byte) (is_segwit : bool) (o : nat) :
  walk (hex bs) is_segwit (2 * Z.of_nat o) = Raise ValueError \/
  exists l, walk (hex bs) is_segwit (2 * Z.of_nat o) = Ok (map hex l) /\
            Forall (segment_of bs) l.
Proof.
  unfold walk. rewrite parse_varint_hex.
  destruct (skipn o bs) as [|b rest]; [now left|].
  cbn [bind]. rewrite !for_range_to_nat.
  destruct (iter_progress bs (skip_input (hex bs)) at_pos
              (skip_input_step bs) (Z.to_nat (varint_value b rest))
              (o + 1 + varint_width b)%nat
              (2 * Z.of_nat (o + 1 + varint_width b)) eq_refl)
    as [->|(o1 & pos1 & -> & Hat & _)]; [now left|].
  unfold at_pos in Hat. subst pos1.
  cbn [bind]. rewrite parse_varint_hex.
  destruct (skipn o1 bs) as [|b1 rest1]; [now left|].
  cbn [bind]. rewrite for_range_to_nat.
  destruct (iter_progress bs (read_output (hex bs)) (at_output bs)
              (read_output_step bs) (Z.to_nat (varint_value b1 rest1))
              (o1 + 1 + varint_width b1)%nat
              (2 * Z.of_nat (o1 + 1 + varint_width b1), []))
    as [->|(o2 & [pos2 acc] & -> & [Hp (l & Hl & Hseg)] & _)].
  { split; [reflexivity|]. exists []. split; [reflexivity|constructor]. }
  { now left. }
  cbn [fst snd] in Hp, Hl. subst pos2 acc. cbn [bind].
  destruct is_segwit.
  - rewrite for_range_to_nat.
    destruct (iter_progress bs (skip_witness (hex bs)) at_pos
                (skip_witness_step bs) (Z.to_nat (varint_value b rest))
                o2 (2 * Z.of_nat o2) eq_refl)
      as [E|(o3 & pos3 & E & _)]; rewrite E; [now left|].
    right. exists l. split; [reflexivity|assumption].
  - right. exists l. split; [reflexivity|assumption].
Qed.

Lemma extract_outcome (bs : list byte) :
  extract_vout_scripts (hex bs) = Raise ValueError \/
  exists l, extract_vout_scripts (hex bs) = Ok (map hex l) /\
            Forall (segment_of bs) l.
Proof.
  rewrite extract_walk.
  destruct (has_marker (hex bs) 8).
  - apply (walk_outcome bs true 6).
  - apply (walk_outcome bs false 4).
Qed.

(** ** Counts larger than the buffer *)

Lemma iter_overflow (bs : list byte) {S : Type} (body : S -> result S)
    (at_offset : nat -> S -> Prop) :
  (forall o s, at_offset o s ->
     body s = Raise ValueError \/
     exists o' s', body s = Ok s' /\ at_offset o' s' /\
                   (o < o')%nat /\ (o < length bs)%nat) ->
  forall n o s, at_offset o s -> (length bs < n)%nat ->
    iter_nat body n s = Raise ValueError.
Proof.
  intros Hstep n o s Hs Hn.
  destruct (iter_progress bs body at_offset Hstep n o s Hs)
    as [E|(o' & s' & _ & _ & _ & Hb)]; [assumption|lia].
Qed.

Lemma extract_start (data : str) :
  extract_vout_scripts data = walk data (has_marker data 8) (start_pos data).
Proof. apply extract_walk. Qed.

Lemma start_pos_hex (bs : list byte) :
  exists o : nat, start_pos (hex bs) = 2 * Z.of_nat o.
Proof.
  unfold start_pos. destruct (has_marker (hex bs) 8).
  - now exists 6%nat.
  - now exists 4%nat.
Qed.

Lemma input_count_overflow (bs : list byte) (c : Z) :
  decoded_input_count (hex bs) = Ok c ->
  0 <= c < varint_max /\
  (len bs < c -> extract_vout_scripts (hex bs) = Raise ValueError).
Proof.
  rewrite extract_start. unfold decoded_input_count, walk.
  destruct (start_pos_hex bs) as [o ->]. rewrite parse_varint_hex.
  destruct (skipn o bs) as [|b rest]; [discriminate|].
  cbn [bind]. intros [= <-].
  split; [apply varint_value_range|]. intros Hc.
  rewrite for_range_to_nat.
  rewrite (iter_overflow bs (skip_input (hex bs)) at_pos
             (skip_input_step bs) _ (o + 1 + varint_width b)%nat);
    [reflexivity|reflexivity|unfold len in Hc; lia].
Qed.

Lemma output_count_overflow (bs : list byte) (c : Z) :
  decoded_output_count (hex bs) = Ok c ->
  0 <= c < varint_max /\
  (len bs < c -> extract_vout_scripts (hex bs) = Raise ValueError).
Proof.
  rewrite extract_start. unfold decoded_output_count, walk.
  destruct (start_pos_hex bs) as [o ->]. rewrite parse_varint_hex.
  destruct (skipn o bs) as [|b rest]; [discriminate|].
  cbn [bind]. rewrite !for_range_to_nat.
  destruct (iter_progress bs (skip_input (hex bs)) at_pos
              (skip_input_step bs) (Z.to_nat (varint_value b rest))
              (o + 1 + varint_width b)%nat
              (2 * Z.of_nat (o + 1 + varint_width b)) eq_refl)
    as [->|(o1 & pos1 & -> & Hat & _)]; [discriminate|].
  unfold at_pos in Hat. subst pos1. cbn [bind]. rewrite parse_varint_hex.
  destruct (skipn o1 bs) as [|b1 rest1]; [discriminate|].
  cbn [bind]. intros [= <-].
  split; [apply varint_value_range|]. intros Hc.
  rewrite for_range_to_nat.
  rewrite (iter_overflow bs (read_output (hex bs)) (at_output bs)
             (read_output_step bs) _ (o1 + 1 + varint_width b1)%nat);
    [reflexivity| |unfold len in Hc; lia].
  split; [reflexivity|]. exists []. split; [reflexivity|constructor].
Qed.

(** ** The record decoder *)

Lemma parse_bhash_payload (script_hex : str) :
  parse_bhash_from_script script_hex
  = if negb (startswith script_hex (lit "6a")) then Ok None else
    let rest := py_slice_from script_hex 2 in
    if len rest <? 2 then Ok None else
    match py_int16 (py_slice rest 0 2) with
    | None => Ok None
    | Some push_len =>
        if len rest <? 2 + push_len * 2 then Ok None else
        payload_bytes <- bytes_fromhex (py_slice rest 2 (2 + push_len * 2)) ;;
        decode_payload payload_bytes
    end.
Proof.
  unfold parse_bhash_from_script, int16, decode_payload.
  destruct (negb (startswith script_hex (lit "6a"))); [reflexivity|].
  cbv zeta. destruct (len (py_slice_from script_hex 2) <? 2); [reflexivity|].
  destruct (py_int16 _); reflexivity.
Qed.

Lemma dict_set_fresh (d : dict) (k : ascii) (v : Z) :
  Forall (fun kv => fst kv <> k) d -> dict_set d k v = d ++ [(k, v)].
Proof.
  induction 1 as [|[k' v'] d Hk Hd IH]; [reflexivity|].
  cbn [dict_set app fst] in *.
  destruct (Ascii.eqb_spec k' k); [contradiction|]. now rewrite IH.
Qed.

Lemma hex_digit_inj (i j : nat) :
  (i < 16)%nat -> (j < 16)%nat -> hex_digit i = hex_digit j -> i = j.
Proof.
  intros Hi Hj.
  do 16 (destruct i as [|i]; [
    do 16 (destruct j as [|j]; [try reflexivity; discriminate|]); lia |]).
  lia.
Qed.

Lemma py_index_hex_chars (i : nat) :
  (i < 16)%nat ->
  py_index (lit "0123456789abcdef") (Z.of_nat i) = Ok (hex_digit i).
Proof.
  intros Hi.
  do 16 (destruct i as [|i]; [reflexivity|]). lia.
Qed.

Lemma for_each_append {A B : Type} (f : A -> B) (xs : list A) (acc : list B) :
  for_each (fun acc x => Ok (acc ++ [f x])) xs acc = Ok (acc ++ map f xs).
Proof.
  revert acc. induction xs as [|x xs IH]; intros acc.
  - cbn. now rewrite app_nil_r.
  - cbn [for_each bind map]. rewrite IH. now rewrite <- app_assoc.
Qed.

(** The loop that fills [bet_dict], from slot [i] on. *)
Lemma bet_dict_loop (amounts : list Z) (i : nat) (acc : dict) :
  (i + length amounts <= 16)%nat ->
  Forall (fun a => 0 <= a) amounts ->
  Forall (fun kv => exists j, (j < i)%nat /\ fst kv = hex_digit j) acc ->
  for_each
    (fun (bet_dict : dict) '(i, amount) =>
       if amount >? 0 then
         c <- py_index (lit "0123456789abcdef") i ;;
         Ok (dict_set bet_dict c amount)
       else Ok bet_dict)
    (combine (map Z.of_nat (seq i (length amounts))) amounts) acc
  = Ok (acc ++ bet_entries i amounts).
Proof.
  revert i acc. induction amounts as [|a amounts IH]; intros i acc Hi Hpos Hacc.
  - cbn. now rewrite app_nil_r.
  - cbn [length] in Hi. inversion Hpos as [|? ? Ha Hpos']; subst.
    cbn [length seq map combine for_each bet_entries].
    assert (Hacc' : forall d, d = acc \/ d = acc ++ [(hex_digit i, a)] ->
              Forall (fun kv => exists j, (j < S i)%nat /\
                                          fst kv = hex_digit j) d).
    { intros d [->| ->].
      - eapply Forall_impl; [|exact Hacc].
        intros kv (j & Hj & E). exists j. split; [lia|assumption].
      - apply Forall_app. split.
        + eapply Forall_impl; [|exact Hacc].
          intros kv (j & Hj & E). exists j. split; [lia|assumption].
        + constructor; [|constructor]. exists i. split; [lia|reflexivity]. }
    destruct (Z.gtb_spec a 0) as [Hgt|Hle].
    + destruct (Z.eqb_spec a 0); [lia|].
      rewrite py_index_hex_chars by lia. cbn [bind].
      rewrite dict_set_fresh.
      * rewrite IH; [now rewrite <- app_assoc|lia|assumption|].
        apply Hacc'. now right.
      * eapply Forall_impl; [|exact Hacc].
        intros kv (j & Hj & E) Heq. rewrite E in Heq.
        apply hex_digit_inj in Heq; lia.
    + destruct (Z.eqb_spec a 0); [|lia]. cbn [bind app].
      apply IH; [lia|assumption|]. apply Hacc'. now left.
Qed.

(** ** The wire format *)

Arguments byte_val : simpl never.

Lemma py_range_bet : py_range 0 32 2
  = [0; 2; 4; 6; 8; 10; 12; 14; 16; 18; 20; 22; 24; 26; 28; 30].
Proof. reflexivity. Qed.

Lemma decode_payload_short (pb : list byte) :
  (length pb < 40)%nat -> decode_payload pb = Ok None.
Proof.
  intros H. unfold decode_payload.
  destruct (Z.ltb_spec (len pb) 40); [reflexivity|unfold len in *; lia].
Qed.

Lemma py_index_0 {A : Type} (a : A) (s : list A) : py_index (a :: s) 0 = Ok a.
Proof. reflexivity. Qed.

Lemma py_index_1 {A : Type} (a b : A) (s : list A) :
  py_index (a :: b :: s) 1 = Ok b.
Proof. reflexivity. Qed.

Ltac slices_to_firstn :=
  repeat match goal with
  | |- context [py_slice ?s ?i ?j] =>
      let o := eval vm_compute in (Z.to_nat i) in
      let k := eval vm_compute in (Z.to_nat (j - i)) in
      rewrite (py_slice_nat s i j o k) by reflexivity
  end;
  cbn [firstn skipn].

Lemma decode_payload_wire (p extra : list byte) :
  length p = 40%nat ->
  decode_payload (p ++ extra)
  = if byte_at p 0 =? 145 then Ok (Some (wire_record p)) else Ok None.
Proof.
  intros Hp. unfold decode_payload.
  destruct (Z.ltb_spec (len (p ++ extra)) 40) as [H|_];
    [unfold len in H; rewrite length_app in H; lia|].
  rewrite (py_slice_nat (p ++ extra) 0 40 0 40) by reflexivity.
  cbn [skipn]. rewrite firstn_app_length by (now rewrite Hp).
  do 40 (destruct p as [|? p]; [discriminate|]).
  destruct p; [|discriminate]. clear Hp.
  unfold byte_at. cbn [nth app]. rewrite !py_index_0, py_index_1.
  cbn [bind].
  destruct (byte_val b =? 145); [|reflexivity]. cbn [negb].
  rewrite for_each_append, py_range_bet. cbn [bind app].
  unfold enumerate.
  rewrite bet_dict_loop.
  - cbn [bind app]. f_equal. f_equal.
    unfold wire_record, wire_bet_data, byte_at.
    cbn [map seq nth Nat.add Nat.mul]. slices_to_firstn.
    unfold from_big. cbn [from_little fold_left].
    f_equal; try lia.
    + repeat (apply f_equal2; [lia|]). reflexivity.
    + f_equal. repeat (apply f_equal2; [lia|]). reflexivity.
  - rewrite length_map. cbn. lia.
  - apply Forall_map, Forall_forall. intros x _. apply from_little_bound.
  - constructor.
Qed.

Lemma startswith_hex_6a (b : byte) (s : str) :
  startswith (hex_of_byte b ++ s) (lit "6a") = (byte_val b =? 106).
Proof. destruct b; reflexivity. Qed.

Lemma decode_payload_long (pb : list byte) :
  (40 <= length pb)%nat ->
  decode_payload pb
  = if byte_at pb 0 =? 145 then Ok (Some (wire_record (firstn 40 pb)))
    else Ok None.
Proof.
  intros H. rewrite <- (firstn_skipn 40 pb) at 1.
  rewrite decode_payload_wire by (rewrite length_firstn; lia).
  destruct pb as [|b pb]; [cbn in H; lia|]. reflexivity.
Qed.

Lemma parse_bhash_hex (bs : list byte) :
  parse_bhash_from_script (hex bs)
  = Ok (if not_applicable bs then None
        else Some (wire_record (firstn 40 (skipn 2 bs)))).
Proof.
  rewrite parse_bhash_payload.
  destruct bs as [|op after]; [reflexivity|].
  change (hex (op :: after)) with (hex_of_byte op ++ hex after).
  rewrite startswith_hex_6a. cbn [not_applicable].
  destruct (byte_val op =? 106); [|reflexivity]. cbn [negb orb]. cbv zeta.
  change (hex_of_byte op ++ hex after) with (hex (op :: after)).
  rewrite (py_slice_from_nat (hex (op :: after)) 2 2) by reflexivity.
  change (skipn 2 (hex (op :: after))) with (hex after).
  destruct after as [|push payload]; [reflexivity|].
  rewrite len_hex.
  destruct (Z.ltb_spec (2 * len (push :: payload)) 2) as [H|_];
    [unfold len in H; cbn [length] in H; lia|].
  rewrite (slice_hex (push :: payload) 0 2 0 1) by reflexivity.
  cbn [skipn firstn]. rewrite int16_hex_byte.
  pose proof (byte_val_range push) as Hr.
  replace (2 * len (push :: payload) <? 2 + byte_val push * 2)
    with (len (push :: payload) <? 1 + byte_val push)
    by (destruct (Z.ltb_spec (len (push :: payload)) (1 + byte_val push)),
          (Z.ltb_spec (2 * len (push :: payload)) (2 + byte_val push * 2));
        try reflexivity; lia).
  destruct (Z.ltb_spec (len (push :: payload)) (1 + byte_val push)) as [|Hlen];
    [reflexivity|]. cbn [orb].
  rewrite (slice_hex (push :: payload) 2 (2 + byte_val push * 2) 1
             (Z.to_nat (byte_val push))) by lia.
  cbn [skipn]. rewrite bytes_fromhex_hex. cbn [bind].
  unfold len in Hlen. cbn [length] in Hlen.
  destruct (Z.ltb_spec (byte_val push) 40) as [Hs|Hl].
  - cbn [orb]. apply f_equal with (f := fun x => x).
    apply decode_payload_short. rewrite length_firstn. lia.
  - cbn [orb]. rewrite decode_payload_long by (rewrite length_firstn; lia).
    rewrite firstn_firstn.
    replace (Init.Nat.min 40 (Z.to_nat (byte_val push))) with 40%nat by lia.
    assert (Hb : byte_at (firstn (Z.to_nat (byte_val push)) payload) 0
                 = byte_at payload 0).
    { destruct payload as [|b0 payload]; [cbn [length] in Hlen; lia|].
      destruct (Z.to_nat (byte_val push)) eqn:E; [lia|reflexivity]. }
    rewrite Hb. destruct (byte_at payload 0 =? 145); reflexivity.
Qed.

(** Every record the decoder returns, on any text, is the wire record of a
    40-byte window. *)
Lemma parse_bhash_some (script_hex : str) (r : bhash_record) :
  parse_bhash_from_script script_hex = Ok (Some r) ->
  exists p, length p = 40%nat /\ r = wire_record p.
Proof.
  rewrite parse_bhash_payload.
  destruct (negb (startswith script_hex (lit "6a"))); [discriminate|].
  cbv zeta. destruct (len (py_slice_from script_hex 2) <? 2); [discriminate|].
  destruct (py_int16 _) as [push_len|]; [|discriminate].
  destruct (len (py_slice_from script_hex 2) <? 2 + push_len * 2);
    [discriminate|].
  destruct (bytes_fromhex _) as [pb|]; [|discriminate]. cbn [bind].
  destruct (Nat.lt_ge_cases (length pb) 40) as [Hs|Hl].
  - rewrite decode_payload_short by assumption. discriminate.
  - rewrite decode_payload_long by assumption.
    destruct (byte_at pb 0 =? 145); [|discriminate].
    intros [= <-]. exists (firstn 40 pb). split; [|reflexivity].
    rewrite length_firstn. lia.
Qed.

Lemma dict_sum_app (d e : dict) : dict_sum (d ++ e) = dict_sum d + dict_sum e.
Proof.
  unfold dict_sum. induction d as [|[k v] d IH]; cbn [app map fold_right snd].
  - lia.
  - cbn [app map fold_right snd] in IH. lia.
Qed.

Lemma dict_sum_entries (i : nat) (amounts : list Z) :
  dict_sum (bet_entries i amounts) = sum (filter nonzero amounts).
Proof.
  revert i. induction amounts as [|a amounts IH]; intros i; [reflexivity|].
  cbn [bet_entries filter]. rewrite dict_sum_app, IH.
  change (nonzero a) with (negb (a =? 0)). destruct (a =? 0); cbn [negb].
  - reflexivity.
  - unfold dict_sum, sum. cbn [map fold_right snd]. lia.
Qed.

Lemma bet_entries_slots (amounts : list Z) :
  length amounts = 16%nat ->
  bet_entries 0 amounts
  = flat_map (fun i => let a := nth i amounts 0 in
                       if a =? 0 then [] else [(hex_digit i, a)])
             (seq 0 16).
Proof.
  intros H.
  do 16 (destruct amounts as [|? amounts]; [discriminate|]).
  destruct amounts; [|discriminate]. reflexivity.
Qed.

Lemma wire_bet_data_length (p : list byte) : length (wire_bet_data p) = 16%nat.
Proof. unfold wire_bet_data. now rewrite length_map. Qed.

(** Bytes missing at the end of a little-endian number count as zero. *)
Lemma from_little_zeros (bs : list byte) (k : nat) :
  from_little (bs ++ repeat x00 k) = from_little bs.
Proof.
  induction bs as [|b bs IH]; cbn [app from_little].
  - induction k as [|k IHk]; [reflexivity|].
    cbn [repeat from_little]. rewrite IHk. reflexivity.
  - now rewrite IH.
Qed.

Lemma firstn_repeat_le {A : Type} (a : A) (k n : nat) :
  (k <= n)%nat -> firstn k (repeat a n) = repeat a k.
Proof.
  revert n. induction k as [|k IH]; intros n H; [reflexivity|].
  destruct n as [|n]; [lia|]. cbn [repeat firstn]. f_equal. apply IH. lia.
Qed.

Lemma firstn_zeros (n : nat) (bs : list byte) :
  firstn n (bs ++ repeat x00 n)
  = firstn n bs ++ repeat x00 (n - length bs).
Proof.
  rewrite firstn_app. f_equal. apply firstn_repeat_le. lia.
Qed.

(** ** The program against the bounds-checked walk *)











(** ** The program on a buffer that ends too early *)









Section PaddedLoop.
Context {S T : Type}.
Variable f : S -> result S.
Variable g : nat -> T -> result T.
Variable cur : T -> nat.
Variable R : S -> T -> Prop.
Variable L : nat.

(** A step of the program that succeeds is a step of the checked walk on
    the buffer completed with [n] zero bytes, once [n] reaches the cursor. *)
Hypothesis step :
  forall s t s', R s t -> f s = Ok s' ->
    exists t', R s' t' /\ (cur t <= cur t')%nat /\
      forall n, (8 <= n)%nat -> (cur t' <= L + n)%nat -> g n t = Ok t'.

End PaddedLoop.







(** The walk once the outputs are read: what is left is the witness pass. *)
Lemma walk_witness_pass (pre : list byte) (ins : list tx_in)
    (outs : list tx_out) (rest : list byte) (is_segwit : bool) :
  len ins < varint_max -> len outs < varint_max ->
  forallb wf_in ins = true -> forallb wf_out outs = true ->
  let bs := pre ++ encode_varint (len ins) ++ flat_map ser_in ins
            ++ encode_varint (len outs) ++ flat_map ser_out outs ++ rest in
  walk (hex bs) is_segwit (2 * Z.of_nat (length pre))
  = (_ <- (if is_segwit then
             iter_nat (skip_witness (hex bs)) (length ins)
               (2 * Z.of_nat (length bs - length rest))
           else Ok 0) ;;
     Ok (scripts_of outs)).
Proof.
  intros Hk Hn Hins Houts bs.
  assert (Hbs : bs = pre ++ encode_varint (len ins) ++ flat_map ser_in ins
            ++ encode_varint (len outs) ++ flat_map ser_out outs ++ rest)
    by reflexivity.
  clearbody bs. unfold walk.
  rewrite (parse_varint_encode bs _ (length pre) (len ins)
             (flat_map ser_in ins ++ encode_varint (len outs)
              ++ flat_map ser_out outs ++ rest));
    [ | reflexivity | subst bs; now apply skipn_app_length
      | split; [apply len_nonneg|assumption] ].
  cbn [bind]. rewrite for_range_len.
  set (p1 := pre ++ encode_varint (len ins)).
  assert (H1 : bs = p1 ++ flat_map ser_in ins
                    ++ (encode_varint (len outs) ++ flat_map ser_out outs
                        ++ rest))
    by (subst bs p1; now rewrite <- !app_assoc).
  replace (length pre + length (encode_varint (len ins)))%nat
    with (length p1) by (subst p1; now rewrite length_app).
  rewrite H1 at 1. rewrite (skip_inputs_ok ins p1 _ Hins). cbn [bind].
  set (p2 := p1 ++ flat_map ser_in ins).
  rewrite (parse_varint_encode bs _ (length p2) (len outs)
             (flat_map ser_out outs ++ rest));
    [ | reflexivity
      | rewrite H1, app_assoc; now apply skipn_app_length
      | split; [apply len_nonneg|assumption] ].
  cbn [bind]. rewrite for_range_len.
  set (p3 := p2 ++ encode_varint (len outs)).
  assert (H3 : bs = p3 ++ flat_map ser_out outs ++ rest)
    by (subst bs p3 p2 p1; now rewrite <- !app_assoc).
  replace (length p2 + length (encode_varint (len outs)))%nat
    with (length p3) by (subst p3; now rewrite length_app).
  rewrite H3 at 1. rewrite (read_outputs_ok outs p3 rest [] Houts).
  cbn [bind app].
  destruct is_segwit; [|reflexivity].
  rewrite for_range_len.
  replace (length bs - length rest)%nat
    with (length (p3 ++ flat_map ser_out outs))
    by (rewrite H3, app_assoc, (length_app _ rest); lia).
  reflexivity.
Qed.

(** ** The witness pass on witness data that stops early *)

Lemma iter_nat_raise {S : Type} (f : S -> result S) (n m : nat) (s s' : S)
    (e : exception) :
  iter_nat f n s = Ok s' -> f s' = Raise e ->
  iter_nat f (n + Datatypes.S m) s = Raise e.
Proof.
  intros Hn He. rewrite iter_nat_add, Hn. cbn [bind iter_nat].
  now rewrite He.
Qed.

Lemma wf_segwit_parts (version : list byte) (ins : list tx_in)
    (outs : list tx_out) (wits : list (list (list byte))) :
  wf_segwit version ins outs wits = true ->
  wf_tx version ins outs = true /\ (0 < length ins)%nat /\
  length wits = length ins /\ forallb wf_stack wits = true.
Proof.
  unfold wf_segwit. rewrite !andb_true_iff, Nat.ltb_lt, Nat.eqb_eq. tauto.
Qed.

(** The witness pass started after the outputs, on witness bytes that stop
    where a stack should begin, or where an item should begin. *)
Lemma witness_pass_stops (p : list byte) (w1 : list (list (list byte)))
    (part : list byte) (m : nat) :
  forallb wf_stack w1 = true ->
  part = [] \/
  (exists stack items : list (list byte),
     part = encode_varint (len stack) ++ flat_map ser_item items
     /\ len stack < varint_max
     /\ forallb (fun item => len item <? varint_max) items = true
     /\ (length items < length stack)%nat) ->
  iter_nat (skip_witness (hex (p ++ flat_map ser_stack w1 ++ part)))
    (length w1 + Datatypes.S m) (2 * Z.of_nat (length p))
  = Raise ValueError.
Proof.
  intros Hw Hpart.
  apply iter_nat_raise
    with (s' := 2 * Z.of_nat (length (p ++ flat_map ser_stack w1))).
  { now apply skip_witnesses_ok. }
  unfold skip_witness. rewrite app_assoc.
  destruct Hpart as [->|(stack & items & -> & Hs & Hit & Hlt)].
  - rewrite app_nil_r.
    now rewrite (parse_varint_end _ _ _ eq_refl (skipn_all _)).
  - rewrite (parse_varint_encode _ _ _ (len stack)
               (flat_map ser_item items) eq_refl);
      [ | now apply skipn_app_length
        | split; [apply len_nonneg|assumption] ].
    cbn [bind]. rewrite for_range_len.
    replace (length stack)
      with (length items + Datatypes.S (length stack - length items - 1))%nat
      by lia.
    set (q := (p ++ flat_map ser_stack w1) ++ encode_varint (len stack)).
    replace (length (p ++ flat_map ser_stack w1)
             + length (encode_varint (len stack)))%nat
      with (length q) by (subst q; now rewrite (length_app _ (encode_varint _))).
    rewrite app_assoc. fold q.
    apply iter_nat_raise with (s' := 2 * Z.of_nat (length (q ++ flat_map ser_item items))).
    + rewrite <- (app_nil_r (q ++ flat_map ser_item items)) at 1.
      rewrite <- app_assoc. now apply skip_witness_items_ok.
    + unfold skip_witness_item.
      now rewrite (parse_varint_end _ _ _ eq_refl (skipn_all _)).
Qed.

Lemma segwit_witness_cut (version : list byte) (ins : list tx_in)
    (outs : list tx_out) (w1 : list (list (list byte))) (part : list byte) :
  wf_tx version ins outs = true -> (length w1 < length ins)%nat ->
  forallb wf_stack w1 = true ->
  part = [] \/
  (exists stack items : list (list byte),
     part = encode_varint (len stack) ++ flat_map ser_item items
     /\ len stack < varint_max
     /\ forallb (fun item => len item <? varint_max) items = true
     /\ (length items < length stack)%nat) ->
  extract_vout_scripts (hex (segwit_tx version ins outs w1 part))
  = Raise ValueError.
Proof.
  intros Hwf Hk Hw Hpart. rewrite extract_walk, has_marker_hex.
  apply wf_tx_parts in Hwf as (Hv & Hi & Ho & Hins & Houts).
  assert (Hm : marker_bytes (segwit_tx version ins outs w1 part) = true).
  { unfold marker_bytes, segwit_tx.
    rewrite skipn_app_length by (now rewrite Hv). reflexivity. }
  rewrite Hm. unfold segwit_tx. rewrite (app_assoc version).
  replace 12 with (2 * Z.of_nat (length (version ++ [x00; x01])))
    by (rewrite length_app, Hv; reflexivity).
  pose proof (walk_witness_pass (version ++ [x00; x01]) ins outs
                (flat_map ser_stack w1 ++ part) true Hi Ho Hins Houts) as Hwalk.
  cbv zeta in Hwalk. rewrite Hwalk. clear Hwalk.
  set (p := (version ++ [x00; x01]) ++ encode_varint (len ins)
            ++ flat_map ser_in ins ++ encode_varint (len outs)
            ++ flat_map ser_out outs).
  replace ((version ++ [x00; x01]) ++ encode_varint (len ins)
           ++ flat_map ser_in ins ++ encode_varint (len outs)
           ++ flat_map ser_out outs ++ flat_map ser_stack w1 ++ part)
    with (p ++ flat_map ser_stack w1 ++ part)
    by (subst p; now rewrite <- !app_assoc).
  replace (length (p ++ flat_map ser_stack w1 ++ part)
           - length (flat_map ser_stack w1 ++ part))%nat
    with (length p) by (rewrite (length_app p); lia).
  replace (length ins)
    with (length w1 + Datatypes.S (length ins - length w1 - 1))%nat by lia.
  now rewrite witness_pass_stops.
Qed.

(** * The claims *)

(** ** C7, C10, C8: [parse_varint] *)

(** C7.  A complete compact-size encoding placed anywhere in a buffer is
    decoded to its value, and the offset moves past exactly the bytes of the
    encoding (two characters of text per byte): 1 byte when the first byte is
    below 0xFD, the value being that byte, and 3, 5 or 9 bytes after a first
    byte 0xFD, 0xFE or 0xFF, the value being the 2, 4 or 8 bytes that follow,
    little-endian.  Decoding what the encoder wrote gives the value back. *)
Theorem parse_varint_roundtrip (pre post : list byte) (v : Z) :
  0 <= v < varint_max ->
  parse_varint (hex (pre ++ encode_varint v ++ post)) (2 * len pre)
  = Ok (v, 2 * (len pre + len (encode_varint v)))
  /\ len (encode_varint v)
     = (if v <? 253 then 1 else if v <? 65536 then 3
        else if v <? 4294967296 then 5 else 9)
  /\ forall (b : byte) (payload : list byte),
       length payload = varint_width b ->
       parse_varint (hex (pre ++ b :: payload ++ post)) (2 * len pre)
       = Ok (if byte_val b <? 253 then byte_val b else from_little payload,
             2 * (len pre + 1 + Z.of_nat (varint_width b)))
       /\ Z.of_nat (varint_width b)
          = (if byte_val b <? 253 then 0 else if byte_val b =? 253 then 2
             else if byte_val b =? 254 then 4 else 8).
Proof.
  intros Hv. split; [|split].
  - rewrite (parse_varint_encode _ _ (length pre) v post);
      [ | reflexivity | now apply skipn_app_length | assumption ].
    f_equal. f_equal. unfold len. lia.
  - unfold encode_varint.
    destruct (v <? 253), (v <? 65536), (v <? 4294967296); reflexivity.
  - intros b payload Hl. split.
    + rewrite (parse_varint_byte _ _ (length pre) b (payload ++ post));
        [ | reflexivity | now apply skipn_app_length ].
      unfold varint_value. rewrite firstn_app_length by (now rewrite Hl).
      f_equal. f_equal. unfold len. lia.
    + unfold varint_width.
      destruct (byte_val b <? 253), (byte_val b =? 253), (byte_val b =? 254);
        reflexivity.
Qed.

Lemma parse_varint_roundtrip_witness :
  parse_varint (hex ([x00] ++ encode_varint 300 ++ [x07])) (2 * len [x00])
  = Ok (300, 2 * (len [x00] + len (encode_varint 300)))
  /\ parse_varint (hex ([x00] ++ xfe :: [x2c; x01; x00; x00] ++ [x07]))
       (2 * len [x00])
     = Ok (if byte_val xfe <? 253 then byte_val xfe
           else from_little [x2c; x01; x00; x00],
           2 * (len [x00] + 1 + Z.of_nat (varint_width xfe))).
Proof.
  assert (H : 0 <= 300 < varint_max) by (unfold varint_max; lia).
  split.
  - exact (proj1 (parse_varint_roundtrip [x00] [x07] 300 H)).
  - refine (proj1 (proj2 (proj2 (parse_varint_roundtrip [x00] [x07] 300 H))
                     xfe [x2c; x01; x00; x00] _)).
    reflexivity.
Defined.

(** C10.  The shortest encoding is not required: a value below 0xFD written
    after a prefix 0xFD, 0xFE or 0xFF, in 2, 4 or 8 little-endian bytes, is
    decoded to that value, as its one-byte encoding is, with the offset moved
    by 3, 5 or 9 bytes. *)
Theorem parse_varint_non_canonical (pre post : list byte) (v : Z) :
  0 <= v < 253 ->
  parse_varint (hex (pre ++ byte_of_Z v :: post)) (2 * len pre)
  = Ok (v, 2 * (len pre + 1))
  /\ parse_varint (hex (pre ++ xfd :: to_little 2 v ++ post)) (2 * len pre)
     = Ok (v, 2 * (len pre + 3))
  /\ parse_varint (hex (pre ++ xfe :: to_little 4 v ++ post)) (2 * len pre)
     = Ok (v, 2 * (len pre + 5))
  /\ parse_varint (hex (pre ++ xff :: to_little 8 v ++ post)) (2 * len pre)
     = Ok (v, 2 * (len pre + 9)).
Proof.
  intros Hv.
  assert (Hw : forall n, (0 < n)%nat -> from_little (to_little n v) = v).
  { intros n Hn. apply from_little_to_little. split; [lia|].
    apply Z.lt_le_trans with (256 ^ 1); [cbn; lia|].
    apply Z.pow_le_mono_r; lia. }
  repeat split.
  - rewrite (parse_varint_byte _ _ (length pre) (byte_of_Z v) post);
      [ | reflexivity | now apply skipn_app_length ].
    unfold varint_value, varint_width. rewrite byte_val_of_Z by lia.
    destruct (Z.ltb_spec v 253); [|lia]. f_equal. f_equal. unfold len. lia.
  - rewrite (parse_varint_byte _ _ (length pre) xfd (to_little 2 v ++ post));
      [ | reflexivity | now apply skipn_app_length ].
    unfold varint_value.
    change (varint_width xfd) with 2%nat. change (byte_val xfd <? 253) with false.
    rewrite firstn_app_length by (now rewrite to_little_length).
    rewrite Hw by lia. f_equal. f_equal. unfold len. lia.
  - rewrite (parse_varint_byte _ _ (length pre) xfe (to_little 4 v ++ post));
      [ | reflexivity | now apply skipn_app_length ].
    unfold varint_value.
    change (varint_width xfe) with 4%nat. change (byte_val xfe <? 253) with false.
    rewrite firstn_app_length by (now rewrite to_little_length).
    rewrite Hw by lia. f_equal. f_equal. unfold len. lia.
  - rewrite (parse_varint_byte _ _ (length pre) xff (to_little 8 v ++ post));
      [ | reflexivity | now apply skipn_app_length ].
    unfold varint_value.
    change (varint_width xff) with 8%nat. change (byte_val xff <? 253) with false.
    rewrite firstn_app_length by (now rewrite to_little_length).
    rewrite Hw by lia. f_equal. f_equal. unfold len. lia.
Qed.

Lemma parse_varint_non_canonical_witness :
  parse_varint (hex ([x01] ++ xfd :: to_little 2 5 ++ [x09])) (2 * len [x01])
  = Ok (5, 2 * (len [x01] + 3)).
Proof.
  refine (proj1 (proj2 (parse_varint_non_canonical [x01] [x09] 5 _))). lia.
Defined.

(** C8, as the program has it.  [parse_varint] raises ([ValueError]) when
    there is no byte at the offset.  When that first byte is there, it never
    raises: the offset moves by the full 1, 3, 5 or 9 bytes, and the value is
    the one that the buffer padded with zero bytes would give, so whatever is
    missing after the first byte counts as zero. *)
Theorem parse_varint_truncated (bs : list byte) (o : nat) :
  ((length bs <= o)%nat ->
   parse_varint (hex bs) (2 * Z.of_nat o) = Raise ValueError)
  /\ (forall (b : byte) (rest : list byte),
        skipn o bs = b :: rest ->
        parse_varint (hex bs) (2 * Z.of_nat o)
        = Ok (varint_value b (rest ++ repeat x00 8),
              2 * Z.of_nat (o + 1 + varint_width b))).
Proof.
  split.
  - intros H. apply (parse_varint_end bs _ o); [reflexivity|].
    now apply skipn_all2.
  - intros b rest Hs.
    rewrite (parse_varint_byte bs _ o b rest eq_refl Hs).
    f_equal. f_equal. unfold varint_value.
    destruct (byte_val b <? 253); [reflexivity|].
    pose proof (varint_width_le b) as Hw.
    rewrite firstn_app.
    rewrite (firstn_repeat_le x00 (varint_width b - length rest) 8) by lia.
    now rewrite from_little_zeros.
Qed.

Lemma parse_varint_truncated_witness :
  parse_varint (hex [x00; xfe; x01]) (2 * Z.of_nat 1)
  = Ok (varint_value xfe ([x01] ++ repeat x00 8),
        2 * Z.of_nat (1 + 1 + varint_width xfe))
  /\ parse_varint (hex [x00; xfe; x01]) (2 * Z.of_nat 3) = Raise ValueError.
Proof.
  split.
  - apply (proj2 (parse_varint_truncated [x00; xfe; x01] 1) xfe [x01]).
    reflexivity.
  - apply (proj1 (parse_varint_truncated [x00; xfe; x01] 3)).
    cbn. lia.
Defined.

(** C8 as stated fails: the buffer [fd] holds one byte of the three that the
    prefix 0xFD selects, and [parse_varint] returns the value 0 and the
    offset of the fourth byte. *)
Lemma parse_varint_short_fd :
  (length [xfd] < 3)%nat /\ parse_varint (hex [xfd]) 0 = Ok (0, 6).
Proof. split; [cbn; lia|reflexivity]. Qed.

(** ** C3, C4, C1, C9: [extract_vout_scripts] *)

(** C3, as the program has it.  For a well-formed legacy transaction with k
    inputs and n outputs, other than the one shape with no input and exactly
    one output, [extract_vout_scripts] returns the n output scripts, one per
    output and in output order, whatever k is. *)
Theorem extract_legacy_scripts (version : list byte) (ins : list tx_in)
    (outs : list tx_out) (tail : list byte) :
  wf_tx version ins outs = true ->
  (length ins = 0%nat -> length outs <> 1%nat) ->
  extract_vout_scripts (hex (legacy_tx version ins outs tail))
  = Ok (map (fun o => hex (out_script o)) outs)
  /\ length (map (fun o => hex (out_script o)) outs) = length outs.
Proof.
  intros Hwf Hk. split.
  - now apply extract_legacy_ok.
  - apply length_map.
Qed.

Lemma extract_legacy_scripts_witness :
  extract_vout_scripts (hex (legacy_tx ex_version [ex_in] [ex_out] ex_locktime))
  = Ok (map (fun o => hex (out_script o)) [ex_out]).
Proof.
  refine (proj1 (extract_legacy_scripts ex_version [ex_in] [ex_out]
                   ex_locktime _ _)).
  - reflexivity.
  - cbn. lia.
Defined.

(** C3 as stated fails for k = 0 and n = 1: the input count 00 and the
    output count 01 are bytes 4 and 5 and read as marker and flag, so the
    first byte of the output value (0xe8) is taken for the input count and
    the walk runs off the buffer. *)
Lemma legacy_no_input_one_output :
  wf_tx ex_version [] [ex_out] = true
  /\ extract_vout_scripts (hex (legacy_tx ex_version [] [ex_out] ex_locktime))
     = Raise ValueError.
Proof. split; vm_compute; reflexivity. Qed.

(** C4.  For a well-formed segregated-witness transaction, whose bytes 4-5
    are 00 01, [extract_vout_scripts] returns the output scripts in output
    order, the list that the legacy encoding of the same inputs and outputs
    yields: marker and flag are skipped, and no witness byte appears in the
    result, which is the same for every witness data.  The witness data is
    walked stack by stack and item by item: when the bytes stop where the
    stack of an input or an item of a stack should begin, the walk fails
    and returns no script. *)
Theorem extract_segwit_scripts (version : list byte) (ins : list tx_in)
    (outs : list tx_out) (wits : list (list (list byte)))
    (tail : list byte) :
  wf_segwit version ins outs wits = true ->
  extract_vout_scripts (hex (segwit_tx version ins outs wits tail))
  = Ok (map (fun o => hex (out_script o)) outs)
  /\ extract_vout_scripts (hex (segwit_tx version ins outs wits tail))
     = extract_vout_scripts (hex (legacy_tx version ins outs tail))
  /\ (forall w1 stack w2,
        wits = w1 ++ stack :: w2 ->
        extract_vout_scripts (hex (segwit_tx version ins outs w1 []))
        = Raise ValueError)
  /\ (forall w1 items item items' w2,
        wits = w1 ++ (items ++ item :: items') :: w2 ->
        extract_vout_scripts
          (hex (segwit_tx version ins outs w1
                  (encode_varint (len (items ++ item :: items'))
                   ++ flat_map ser_item items)))
        = Raise ValueError).
Proof.
  intros H. apply wf_segwit_parts in H as (Hwf & Hk & Hl & Hw).
  assert (Hleg : length ins = 0%nat -> length outs <> 1%nat) by lia.
  split; [now apply extract_segwit_ok|].
  split; [rewrite extract_segwit_ok, extract_legacy_ok by assumption;
          reflexivity|].
  split.
  - intros w1 stack w2 ->. rewrite forallb_app in Hw.
    apply andb_true_iff in Hw as [Hw1 _].
    rewrite length_app in Hl. cbn [length] in Hl.
    apply segwit_witness_cut; auto; lia.
  - intros w1 items item items' w2 ->. rewrite forallb_app in Hw.
    apply andb_true_iff in Hw as [Hw1 Hw2]. cbn [forallb] in Hw2.
    apply andb_true_iff in Hw2 as [Hst _]. unfold wf_stack in Hst.
    apply andb_true_iff in Hst as [Hn Hit]. rewrite forallb_app in Hit.
    apply andb_true_iff in Hit as [Hit _].
    rewrite length_app in Hl. cbn [length] in Hl.
    apply segwit_witness_cut; auto; [lia|].
    right. exists (items ++ item :: items'), items.
    split; [reflexivity|]. split; [now apply Z.ltb_lt|].
    split; [assumption|]. rewrite length_app. cbn [length]. lia.
Qed.

Lemma extract_segwit_scripts_witness :
  extract_vout_scripts
    (hex (segwit_tx ex_version [ex_in] [ex_out] [ex_stack] ex_locktime))
  = Ok (map (fun o => hex (out_script o)) [ex_out])
  /\ extract_vout_scripts
       (hex (segwit_tx ex_version [ex_in] [ex_out] [ex_stack] ex_locktime))
     = extract_vout_scripts
         (hex (legacy_tx ex_version [ex_in] [ex_out] ex_locktime))
  /\ extract_vout_scripts (hex (segwit_tx ex_version [ex_in] [ex_out] [] []))
     = Raise ValueError
  /\ extract_vout_scripts
       (hex (segwit_tx ex_version [ex_in] [ex_out] []
               (encode_varint (len ([[x30; x45]] ++ [x02] :: []))
                ++ flat_map ser_item [[x30; x45]])))
     = Raise ValueError.
Proof.
  assert (H : wf_segwit ex_version [ex_in] [ex_out] [ex_stack] = true)
    by reflexivity.
  destruct (extract_segwit_scripts ex_version [ex_in] [ex_out] [ex_stack]
              ex_locktime H) as (H1 & H2 & H3 & H4).
  split; [exact H1|]. split; [exact H2|]. split.
  - exact (H3 [] ex_stack [] eq_refl).
  - exact (H4 [] [[x30; x45]] [x02] [] [] eq_refl).
Defined.




(** C9, as the program has it.  The input count and the output count are
    exact integers from 0 to 2^64 - 1, never wrapped; the program does not
    validate them.  A count larger than the number of bytes of the buffer
    makes the walk raise the same [ValueError] as a truncated buffer. *)
Theorem count_beyond_buffer_raises (bs : list byte) (c : Z) :
  decoded_input_count (hex bs) = Ok c \/
  decoded_output_count (hex bs) = Ok c ->
  0 <= c < varint_max
  /\ (len bs < c -> extract_vout_scripts (hex bs) = Raise ValueError).
Proof.
  intros [H|H].
  - now apply input_count_overflow.
  - now apply output_count_overflow.
Qed.

Lemma count_beyond_buffer_raises_witness :
  decoded_input_count (hex ex_huge) = Ok 18446744073709551615
  /\ len ex_huge < 18446744073709551615
  /\ extract_vout_scripts (hex ex_huge) = Raise ValueError.
Proof.
  assert (H : decoded_input_count (hex ex_huge) = Ok 18446744073709551615)
    by (vm_compute; reflexivity).
  assert (Hl : len ex_huge < 18446744073709551615)
    by (vm_compute; reflexivity).
  split; [exact H|]. split; [exact Hl|].
  exact (proj2 (count_beyond_buffer_raises ex_huge 18446744073709551615
                  (or_introl H)) Hl).
Defined.

(** C9 as stated fails: the input count of [ex_huge] is 2^64 - 1, beyond
    the platform size type, and the walk raises [ValueError], the failure of
    a truncated buffer, not an overflow error. *)
Lemma huge_count_value_error :
  decoded_input_count (hex ex_huge) = Ok 18446744073709551615
  /\ sys_maxsize < 18446744073709551615
  /\ extract_vout_scripts (hex ex_huge) = Raise ValueError
  /\ extract_vout_scripts (hex ex_huge) <> Raise OverflowError.
Proof.
  assert (H : extract_vout_scripts (hex ex_huge) = Raise ValueError)
    by (vm_compute; reflexivity).
  repeat split; try (vm_compute; reflexivity).
  rewrite H. discriminate.
Qed.

(** ** C2, C5, C6: [parse_bhash_from_script] *)

(** C2.  For a script made of the byte 0x6a, a push length of at least 40
    and at least that many bytes, the first of them 0x91,
    [parse_bhash_from_script] returns the record of the format table read on
    the first 40 payload bytes [p]: magic is byte 0, content_type byte 1,
    block_height bytes 2-5 big-endian, asset_type bytes 6-7 big-endian,
    bet_data the 16 little-endian pairs of bytes 8-39 in order.  The push
    length and the bytes after the 40th do not occur in the result. *)
Theorem parse_bhash_wire_format (push : byte) (p extra : list byte) :
  length p = 40%nat ->
  40 <= byte_val push <= len (p ++ extra) ->
  byte_at p 0 = 145 ->
  parse_bhash_from_script (hex (x6a :: push :: p ++ extra))
  = Ok (Some (wire_record p))
  /\ magic (wire_record p) = 145
  /\ content_type (wire_record p) = byte_at p 1
  /\ block_height (wire_record p)
     = byte_at p 2 * 2 ^ 24 + byte_at p 3 * 2 ^ 16 + byte_at p 4 * 2 ^ 8
       + byte_at p 5
  /\ asset_type (wire_record p) = byte_at p 6 * 2 ^ 8 + byte_at p 7
  /\ bet_data (wire_record p)
     = map (fun i => byte_at p (8 + 2 * i) + 2 ^ 8 * byte_at p (9 + 2 * i))
           (seq 0 16).
Proof.
  intros Hp [Hlo Hhi] Hm. split; [|repeat split; assumption].
  rewrite parse_bhash_hex. cbn [not_applicable skipn].
  rewrite firstn_app_length by (now rewrite Hp).
  change (byte_val x6a =? 106) with true. cbn [negb orb].
  assert (Hb : byte_at (p ++ extra) 0 = byte_at p 0)
    by (destruct p; [discriminate|reflexivity]).
  rewrite Hb, Hm.
  destruct (Z.ltb_spec (len (push :: p ++ extra)) (1 + byte_val push)) as [H|_];
    [unfold len in *; cbn [length] in H; lia|].
  destruct (Z.ltb_spec (byte_val push) 40); [lia|]. reflexivity.
Qed.

Lemma parse_bhash_wire_format_witness :
  parse_bhash_from_script (hex (x6a :: x28 :: ex_payload ++ []))
  = Ok (Some (wire_record ex_payload)).
Proof.
  refine (proj1 (parse_bhash_wire_format x28 ex_payload [] _ _ _)).
  - reflexivity.
  - vm_compute. split; discriminate.
  - reflexivity.
Defined.

(** C5.  On the text of any script bytes [parse_bhash_from_script] returns
    and never raises; it returns [None] for a script that does not start with
    0x6a, that has fewer than 1 + push_len bytes after that byte, whose push
    length is below 40, or whose first payload byte is not 0x91. *)
Theorem parse_bhash_never_raises (script : list byte) :
  (exists r, parse_bhash_from_script (hex script) = Ok r)
  /\ (not_applicable script = true ->
      parse_bhash_from_script (hex script) = Ok None).
Proof.
  rewrite parse_bhash_hex. split.
  - eexists. reflexivity.
  - intros ->. reflexivity.
Qed.

Lemma parse_bhash_never_raises_witness :
  not_applicable [x6a; x28; x91; x02] = true
  /\ parse_bhash_from_script (hex [x6a; x28; x91; x02]) = Ok None.
Proof.
  split; [reflexivity|].
  apply (proj2 (parse_bhash_never_raises [x6a; x28; x91; x02])).
  reflexivity.
Defined.

(** Outside the domain of C5: on a text that is not the hexadecimal form of
    bytes, [bytes.fromhex] raises and nothing catches it. *)
Example parse_bhash_non_hex_text :
  parse_bhash_from_script (lit "6a01zz") = Raise ValueError.
Proof. reflexivity. Qed.

(** C6.  In every record that [parse_bhash_from_script] returns, on any
    text, [bet_data] has 16 entries and [bet_dict] lists, in ascending slot
    order, the pair of the nibble label of slot i and [bet_data[i]] for
    exactly the slots whose amount is not zero, and nothing else; the sum of
    its values is the sum of the non-zero entries of [bet_data]. *)
Theorem bet_dict_nonzero_slots (script_hex : str) (r : bhash_record) :
  parse_bhash_from_script script_hex = Ok (Some r) ->
  length (bet_data r) = 16%nat
  /\ bet_dict r
     = flat_map (fun i => let a := nth i (bet_data r) 0 in
                          if a =? 0 then [] else [(hex_digit i, a)])
                (seq 0 16)
  /\ dict_sum (bet_dict r) = sum (filter nonzero (bet_data r)).
Proof.
  intros H. apply parse_bhash_some in H as (p & Hp & ->).
  cbn [wire_record bet_data bet_dict].
  pose proof (wire_bet_data_length p) as Hl.
  split; [assumption|]. split.
  - now apply bet_entries_slots.
  - apply dict_sum_entries.
Qed.

Lemma bet_dict_nonzero_slots_witness :
  dict_sum (bet_dict (wire_record ex_payload))
  = sum (filter nonzero (bet_data (wire_record ex_payload))).
Proof.
  refine (proj2 (proj2 (bet_dict_nonzero_slots (hex ex_script)
                          (wire_record ex_payload) _))).
  vm_compute. reflexivity.
Defined.

(** * More of the program: helper facts *)

(** ** Case of the input text *)

Lemma upper_af_tests (c : ascii) :
  is_space (upper_af c) = is_space c
  /\ hex_digit_value (upper_af c) = hex_digit_value c
  /\ is_underscore (upper_af c) = is_underscore c
  /\ is_x (upper_af c) = is_x c
  /\ (code (upper_af c) =? 43) = (code c =? 43)
  /\ (code (upper_af c) =? 45) = (code c =? 45)
  /\ (code (upper_af c) =? 48) = (code c =? 48)
  /\ Ascii.eqb (upper_af c) "0" = Ascii.eqb c "0"
  /\ Ascii.eqb (upper_af c) "1" = Ascii.eqb c "1"
  /\ to_ascii_space (upper_af c) = upper_af (to_ascii_space c).
Proof.
  destruct c as [[] [] [] [] [] [] [] []]; vm_compute; repeat split.
Qed.

Lemma py_int16_view (s : str) :
  py_int16 s
  = match drop_spaces (map to_ascii_space s) with
    | c :: t =>
        if code c =? 43 then int_parse_digits 1 (int_strip_prefix t)
        else if code c =? 45 then int_parse_digits (-1) (int_strip_prefix t)
        else int_parse_digits 1 (int_strip_prefix (c :: t))
    | [] => None
    end.
Proof.
  unfold py_int16.
  destruct (drop_spaces (map to_ascii_space s)) as [|c t]; [reflexivity|].
  destruct (code c =? 43); [reflexivity|].
  destruct (code c =? 45); reflexivity.
Qed.

Lemma drop_spaces_upper (s : str) :
  drop_spaces (upper_text s) = upper_text (drop_spaces s).
Proof.
  induction s as [|c s IH]; [reflexivity|].
  cbn [upper_text map drop_spaces].
  destruct (upper_af_tests c) as (-> & _).
  destruct (is_space c); [exact IH|reflexivity].
Qed.

Lemma to_ascii_space_upper (s : str) :
  map to_ascii_space (upper_text s) = upper_text (map to_ascii_space s).
Proof.
  unfold upper_text. induction s as [|c s IH]; [reflexivity|].
  cbn [map]. rewrite IH.
  destruct (upper_af_tests c) as (_ & _ & _ & _ & _ & _ & _ & _ & _ & ->).
  reflexivity.
Qed.

Lemma scan_digits_upper (s : str) (prev_us : bool) (acc : option Z) :
  scan_digits (upper_text s) prev_us acc
  = match scan_digits s prev_us acc with
    | Some (v, tl) => Some (v, upper_text tl)
    | None => None
    end.
Proof.
  revert prev_us acc. induction s as [|c s IH]; intros prev_us acc.
  - cbn. destruct prev_us; [reflexivity|]. destruct acc; reflexivity.
  - cbn [upper_text map scan_digits].
    destruct (upper_af_tests c) as (_ & -> & -> & _).
    destruct (is_underscore c).
    + destruct prev_us; [reflexivity|]. apply IH.
    + destruct (hex_digit_value c); [apply IH|].
      destruct prev_us; [reflexivity|]. destruct acc; reflexivity.
Qed.

Lemma int_strip_prefix_upper (s : str) :
  int_strip_prefix (upper_text s) = upper_text (int_strip_prefix s).
Proof.
  destruct s as [|z [|x s]]; try reflexivity.
  cbn [upper_text map int_strip_prefix].
  destruct (upper_af_tests z) as (_ & _ & _ & _ & _ & _ & -> & _).
  destruct (upper_af_tests x) as (_ & _ & _ & -> & _).
  destruct ((code z =? 48) && is_x x); [|reflexivity].
  destruct s as [|u s]; [reflexivity|]. cbn [map].
  destruct (upper_af_tests u) as (_ & _ & -> & _).
  destruct (is_underscore u); reflexivity.
Qed.

Lemma int_parse_digits_upper (sign : Z) (s : str) :
  int_parse_digits sign (upper_text s) = int_parse_digits sign s.
Proof.
  unfold int_parse_digits. rewrite scan_digits_upper.
  destruct s as [|c s]; [reflexivity|]. cbn [upper_text map].
  destruct (upper_af_tests c) as (_ & _ & -> & _).
  destruct (is_underscore c); [reflexivity|].
  destruct (scan_digits (c :: s) false None) as [[v tl]|]; [|reflexivity].
  rewrite drop_spaces_upper. destruct (drop_spaces tl); reflexivity.
Qed.

Lemma py_int16_upper (s : str) : py_int16 (upper_text s) = py_int16 s.
Proof.
  rewrite !py_int16_view, to_ascii_space_upper, drop_spaces_upper.
  destruct (drop_spaces (map to_ascii_space s)) as [|c t]; [reflexivity|].
  cbn [upper_text map].
  destruct (upper_af_tests c) as (_ & _ & _ & _ & -> & -> & _).
  change (upper_af c :: map upper_af t) with (upper_text (c :: t)).
  change (map upper_af t) with (upper_text t).
  rewrite !int_strip_prefix_upper, !int_parse_digits_upper. reflexivity.
Qed.

Lemma py_fromhex_upper_len (n : nat) (s : str) :
  (length s <= n)%nat -> py_fromhex (upper_text s) = py_fromhex s.
Proof.
  revert s. induction n as [|n IH]; intros s Hn.
  - destruct s; [reflexivity|cbn in Hn; lia].
  - destruct s as [|c s]; [reflexivity|].
    cbn [upper_text map py_fromhex]. cbn [length] in Hn.
    destruct (upper_af_tests c) as (-> & -> & _).
    destruct (is_space c); [apply IH; lia|].
    destruct (hex_digit_value c); [|reflexivity].
    destruct s as [|d s]; [reflexivity|]. cbn [map].
    destruct (upper_af_tests d) as (_ & -> & _).
    destruct (hex_digit_value d); [|reflexivity].
    change (map upper_af s) with (upper_text s).
    rewrite IH by (cbn [length] in Hn; lia). reflexivity.
Qed.

Lemma py_fromhex_upper (s : str) : py_fromhex (upper_text s) = py_fromhex s.
Proof. now apply (py_fromhex_upper_len (length s)). Qed.

Lemma py_slice_map {A B : Type} (f : A -> B) (s : list A) (i j : Z) :
  py_slice (map f s) i j = map f (py_slice s i j).
Proof.
  unfold py_slice, len. rewrite length_map.
  now rewrite skipn_map, firstn_map.
Qed.

Lemma int16_upper (s : str) (i j : Z) :
  int16 (py_slice (upper_text s) i j) = int16 (py_slice s i j).
Proof.
  unfold upper_text, int16. rewrite py_slice_map.
  change (map upper_af (py_slice s i j)) with (upper_text (py_slice s i j)).
  now rewrite py_int16_upper.
Qed.

Lemma bytes_fromhex_upper (s : str) (i j : Z) :
  bytes_fromhex (py_slice (upper_text s) i j) = bytes_fromhex (py_slice s i j).
Proof.
  unfold upper_text, bytes_fromhex. rewrite py_slice_map.
  change (map upper_af (py_slice s i j)) with (upper_text (py_slice s i j)).
  now rewrite py_fromhex_upper.
Qed.

Lemma parse_varint_upper (data : str) (offset : Z) :
  parse_varint (upper_text data) offset = parse_varint data offset.
Proof.
  unfold parse_varint. rewrite int16_upper, !bytes_fromhex_upper.
  reflexivity.
Qed.

Lemma str_eqb_upper_marker (t : str) :
  str_eqb (upper_text t) (lit "00") = str_eqb t (lit "00")
  /\ str_eqb (upper_text t) (lit "01") = str_eqb t (lit "01").
Proof.
  destruct t as [|a [|b [|c t]]]; try (split; reflexivity);
    cbn [upper_text map str_eqb lit list_ascii_of_string];
    destruct (upper_af_tests a) as (_ & _ & _ & _ & _ & _ & _ & -> & _);
    try (destruct (upper_af_tests b) as (_ & _ & _ & _ & _ & _ & _ & -> & -> & _));
    split; reflexivity.
Qed.

Lemma has_marker_upper (data : str) (pos : Z) :
  has_marker (upper_text data) pos = has_marker data pos.
Proof.
  unfold has_marker, upper_text. rewrite !py_slice_map.
  change (map upper_af (py_slice data pos (pos + 2)))
    with (upper_text (py_slice data pos (pos + 2))).
  change (map upper_af (py_slice data (pos + 2) (pos + 4)))
    with (upper_text (py_slice data (pos + 2) (pos + 4))).
  destruct (str_eqb_upper_marker (py_slice data pos (pos + 2))) as [-> _].
  destruct (str_eqb_upper_marker (py_slice data (pos + 2) (pos + 4)))
    as [_ ->].
  reflexivity.
Qed.

Lemma iter_nat_map {S T : Type} (f : S -> result S) (g : T -> result T)
    (h : S -> T) :
  (forall s, g (h s) = result_map h (f s)) ->
  forall n s, iter_nat g n (h s) = result_map h (iter_nat f n s).
Proof.
  intros Hstep n. induction n as [|n IH]; intros s; [reflexivity|].
  cbn [iter_nat]. rewrite Hstep.
  destruct (f s) as [s'|e]; [|reflexivity]. cbn [result_map bind]. apply IH.
Qed.

Lemma for_range_map {S T : Type} (f : S -> result S) (g : T -> result T)
    (h : S -> T) (n : Z) (s : S) :
  (forall s, g (h s) = result_map h (f s)) ->
  for_range g n (h s) = result_map h (for_range f n s).
Proof.
  intros Hstep. rewrite !for_range_to_nat. now apply iter_nat_map.
Qed.

Lemma result_map_id {A : Type} (m : result A) : result_map (fun a => a) m = m.
Proof. destruct m; reflexivity. Qed.

Lemma skip_input_upper (data : str) (pos : Z) :
  skip_input (upper_text data) pos = skip_input data pos.
Proof. unfold skip_input. now rewrite parse_varint_upper. Qed.

Lemma skip_witness_item_upper (data : str) (pos : Z) :
  skip_witness_item (upper_text data) pos = skip_witness_item data pos.
Proof. unfold skip_witness_item. now rewrite parse_varint_upper. Qed.

Lemma skip_witness_upper (data : str) (pos : Z) :
  skip_witness (upper_text data) pos = skip_witness data pos.
Proof.
  unfold skip_witness. rewrite parse_varint_upper.
  destruct (parse_varint data pos) as [[n p]|]; [|reflexivity]. cbn [bind].
  rewrite (for_range_map (skip_witness_item data)
             (skip_witness_item (upper_text data)) (fun p => p)).
  - apply result_map_id.
  - intros s. rewrite result_map_id. apply skip_witness_item_upper.
Qed.

(** The state of the output loop when the text is in upper case. *)
Lemma read_output_upper (data : str) (st : Z * list str) :
  read_output (upper_text data) (fst st, map upper_text (snd st))
  = result_map (fun st' => (fst st', map upper_text (snd st')))
      (read_output data st).
Proof.
  destruct st as [pos acc]. unfold read_output. cbn [fst snd].
  rewrite parse_varint_upper.
  destruct (parse_varint data (pos + 16)) as [[n p]|]; [|reflexivity].
  cbn [bind result_map fst snd]. rewrite map_app. cbn [map].
  unfold upper_text. rewrite py_slice_map. reflexivity.
Qed.

Lemma walk_upper (data : str) (is_segwit : bool) (pos : Z) :
  walk (upper_text data) is_segwit pos
  = result_map (map upper_text) (walk data is_segwit pos).
Proof.
  unfold walk. rewrite parse_varint_upper.
  destruct (parse_varint data pos) as [[k p]|]; [|reflexivity]. cbn [bind].
  rewrite (for_range_map (skip_input data) (skip_input (upper_text data))
             (fun p => p))
    by (intros s; rewrite result_map_id; apply skip_input_upper).
  rewrite result_map_id.
  destruct (for_range (skip_input data) k p) as [p1|]; [|reflexivity].
  cbn [bind]. rewrite parse_varint_upper.
  destruct (parse_varint data p1) as [[n p2]|]; [|reflexivity]. cbn [bind].
  pose proof (for_range_map (read_output data)
                (read_output (upper_text data))
                (fun st => (fst st, map upper_text (snd st)))
                n (p2, []) (read_output_upper data)) as Hout.
  cbn [fst snd map] in Hout. rewrite Hout.
  destruct (for_range (read_output data) n (p2, [])) as [[p3 scripts]|];
    [|reflexivity].
  cbn [result_map bind fst snd].
  destruct is_segwit; [|reflexivity].
  rewrite (for_range_map (skip_witness data) (skip_witness (upper_text data))
             (fun p => p))
    by (intros s; rewrite result_map_id; apply skip_witness_upper).
  rewrite result_map_id.
  destruct (for_range (skip_witness data) k p3); reflexivity.
Qed.

Lemma startswith_upper_6a (s : str) :
  startswith (upper_text s) (lit "6a") = false.
Proof.
  destruct s as [|a [|b s]]; [reflexivity| |].
  - cbn. apply andb_false_r.
  - cbn [upper_text map startswith lit list_ascii_of_string].
    assert (H : Ascii.eqb (upper_af b) "a" = false)
      by (destruct b as [[] [] [] [] [] [] [] []]; reflexivity).
    rewrite H. cbn. apply andb_false_r.
Qed.

(** ** Edge behaviour of the walk *)

Lemma py_slice_beyond {A : Type} (s : list A) (i j : Z) :
  len s <= i -> i <= j -> py_slice s i j = [].
Proof.
  intros Hi Hj. unfold py_slice, slice_index.
  pose proof (len_nonneg s).
  destruct (Z.ltb_spec i 0); [lia|]. destruct (Z.ltb_spec j 0); [lia|].
  rewrite !Z.min_r by lia. rewrite Z.sub_diag. reflexivity.
Qed.

Lemma read_outputs_length (data : str) (n : nat) :
  forall (st st' : Z * list str),
    iter_nat (read_output data) n st = Ok st' ->
    length (snd st') = (length (snd st) + n)%nat.
Proof.
  induction n as [|n IH]; intros st st' H.
  - cbn in H. injection H as <-. lia.
  - cbn [iter_nat] in H.
    destruct (read_output data st) as [st1|] eqn:E; [|discriminate].
    cbn [bind] in H. apply IH in H. rewrite H.
    destruct st as [pos acc]. unfold read_output in E.
    destruct (parse_varint data (pos + 16)) as [[k p]|]; [|discriminate].
    cbn [bind] in E. injection E as <-. cbn [snd].
    rewrite length_app. cbn [length]. lia.
Qed.

Lemma decode_payload_ok (pb : list byte) : exists r, decode_payload pb = Ok r.
Proof.
  destruct (Nat.lt_ge_cases (length pb) 40) as [Hs|Hl].
  - rewrite decode_payload_short by assumption. eexists. reflexivity.
  - rewrite decode_payload_long by assumption.
    destruct (byte_at pb 0 =? 145); eexists; reflexivity.
Qed.

Lemma py_fromhex_length (s : str) (n : nat) :
  (length s <= n)%nat ->
  forall bs, py_fromhex s = Some bs -> (2 * length bs <= length s)%nat.
Proof.
  revert s. induction n as [|n IH]; intros s Hn bs H.
  - destruct s; [|cbn in Hn; lia]. injection H as <-. cbn. lia.
  - destruct s as [|c s]; [injection H as <-; cbn; lia|].
    cbn [py_fromhex] in H. cbn [length] in Hn |- *.
    destruct (is_space c).
    { apply IH in H; lia. }
    destruct (hex_digit_value c); [|discriminate].
    destruct s as [|d s]; [discriminate|].
    destruct (hex_digit_value d); [|discriminate].
    destruct (py_fromhex s) as [bs'|] eqn:E; [|discriminate].
    injection H as <-. cbn [length] in Hn |- *.
    specialize (IH s ltac:(lia) bs' E). lia.
Qed.

Lemma py_slice_length_from {A : Type} (s : list A) (i j : Z) :
  0 <= i -> len (py_slice s i j) <= Z.max 0 (len s - i).
Proof.
  intros Hi. unfold py_slice, slice_index, len.
  rewrite length_firstn, length_skipn.
  destruct (Z.ltb_spec i 0); [lia|].
  destruct (Z.ltb_spec j 0); lia.
Qed.

Lemma startswith_length (s prefix : str) :
  startswith s prefix = true -> (length prefix <= length s)%nat.
Proof.
  revert s. induction prefix as [|d prefix IH]; intros s H; [cbn; lia|].
  destruct s as [|c s]; [discriminate|].
  cbn [startswith] in H. apply andb_true_iff in H as [_ H].
  apply IH in H. cbn [length]. lia.
Qed.

(** A record comes from a 40-byte window that starts with the magic. *)
Lemma parse_bhash_some_window (script_hex : str) (r : bhash_record) :
  parse_bhash_from_script script_hex = Ok (Some r) ->
  84 <= len script_hex
  /\ exists p, length p = 40%nat /\ byte_at p 0 = 145 /\ r = wire_record p.
Proof.
  rewrite parse_bhash_payload.
  destruct (startswith script_hex (lit "6a")) eqn:Hsw; [|discriminate].
  apply startswith_length in Hsw. cbn [negb]. cbv zeta.
  destruct (len (py_slice_from script_hex 2) <? 2); [discriminate|].
  destruct (py_int16 _) as [push_len|]; [|discriminate].
  destruct (len (py_slice_from script_hex 2) <? 2 + push_len * 2);
    [discriminate|].
  unfold bytes_fromhex.
  destruct (py_fromhex _) as [pb|] eqn:Hpb; [|discriminate]. cbn [bind].
  destruct (Nat.lt_ge_cases (length pb) 40) as [Hs|Hl].
  { rewrite decode_payload_short by assumption. discriminate. }
  rewrite decode_payload_long by assumption.
  destruct (Z.eqb_spec (byte_at pb 0) 145) as [Hm|]; [|discriminate].
  intros [= <-]. split.
  - apply (py_fromhex_length _ _ (Nat.le_refl _)) in Hpb.
    pose proof (py_slice_length_from (py_slice_from script_hex 2) 2
                  (2 + push_len * 2) ltac:(lia)) as Hsl.
    rewrite (py_slice_from_nat script_hex 2 2) in Hsl, Hpb by reflexivity.
    unfold len in *. rewrite length_skipn in Hsl.
    change (length (lit "6a")) with 2%nat in Hsw. lia.
  - exists (firstn 40 pb). split; [rewrite length_firstn; lia|].
    split; [|reflexivity].
    destruct pb; [cbn in Hl; lia|exact Hm].
Qed.

Lemma byte_at_range (p : list byte) (i : nat) : 0 <= byte_at p i < 256.
Proof. apply byte_val_range. Qed.

Lemma wire_record_ranges (p : list byte) :
  0 <= content_type (wire_record p) < 256
  /\ 0 <= block_height (wire_record p) < 4294967296
  /\ 0 <= asset_type (wire_record p) < 65536
  /\ Forall (fun a => 0 <= a < 65536) (bet_data (wire_record p)).
Proof.
  cbn [wire_record content_type block_height asset_type bet_data].
  pose proof (byte_at_range p) as H.
  pose proof (H 1%nat). pose proof (H 2%nat). pose proof (H 3%nat).
  pose proof (H 4%nat). pose proof (H 5%nat). pose proof (H 6%nat).
  pose proof (H 7%nat).
  repeat split; try lia.
  unfold wire_bet_data. apply Forall_map, Forall_forall. intros i _.
  pose proof (H (8 + 2 * i)%nat). pose proof (H (9 + 2 * i)%nat). lia.
Qed.

Lemma dict_get_app_fresh (d e : dict) (k : ascii) :
  Forall (fun kv => fst kv <> k) d -> dict_get (d ++ e) k = dict_get e k.
Proof.
  induction 1 as [|[k' v'] d Hk Hd IH]; [reflexivity|].
  cbn [app dict_get fst] in *.
  destruct (Ascii.eqb_spec k' k); [contradiction|assumption].
Qed.

Lemma bet_entries_keys (k : nat) (amounts : list Z) :
  Forall (fun kv => exists j, (k <= j < k + length amounts)%nat /\
                              fst kv = hex_digit j)
         (bet_entries k amounts).
Proof.
  revert k. induction amounts as [|a amounts IH]; intros k; [constructor|].
  cbn [bet_entries length]. apply Forall_app. split.
  - destruct (a =? 0); constructor; [|constructor].
    exists k. split; [lia|reflexivity].
  - eapply Forall_impl; [|apply IH].
    intros kv (j & Hj & E). exists j. split; [lia|assumption].
Qed.

Lemma dict_get_entries (amounts : list Z) (k i : nat) :
  (k + length amounts <= 16)%nat -> (i < length amounts)%nat ->
  dict_get (bet_entries k amounts) (hex_digit (k + i))
  = if nth i amounts 0 =? 0 then None else Some (nth i amounts 0).
Proof.
  revert k i. induction amounts as [|a amounts IH]; intros k i Hk Hi;
    [cbn in Hi; lia|].
  cbn [length] in Hk, Hi. cbn [bet_entries].
  destruct i as [|i].
  - rewrite Nat.add_0_r. cbn [nth].
    destruct (a =? 0).
    + cbn [app].
      assert (H : dict_get (bet_entries (S k) amounts ++ []) (hex_digit k)
                  = dict_get [] (hex_digit k)).
      { apply dict_get_app_fresh.
        eapply Forall_impl; [|apply bet_entries_keys].
        intros kv (j & Hj & E) Heq. rewrite E in Heq.
        apply hex_digit_inj in Heq; lia. }
      rewrite app_nil_r in H. exact H.
    + cbn [app dict_get]. now rewrite Ascii.eqb_refl.
  - cbn [nth]. replace (k + S i)%nat with (S k + i)%nat by lia.
    rewrite dict_get_app_fresh.
    + apply IH; lia.
    + destruct (a =? 0); constructor; [|constructor].
      cbn [fst]. intros Heq. apply hex_digit_inj in Heq; lia.
Qed.

(** ** Formatting and reading back hexadecimal numbers *)

Lemma hex_char_tests (d : Z) :
  0 <= d < 16 ->
  hex_digit_value (hex_char d) = Some d
  /\ is_space (hex_char d) = false
  /\ is_underscore (hex_char d) = false
  /\ is_x (hex_char d) = false
  /\ (code (hex_char d) =? 43) = false
  /\ (code (hex_char d) =? 45) = false
  /\ to_ascii_space (hex_char d) = hex_char d.
Proof.
  intros H.
  destruct d as [|p|p]; [vm_compute; repeat split| |lia].
  do 4 (try destruct p as [p|p|]); try lia; vm_compute; repeat split.
Qed.

Lemma hex_digits_fuel_chars (fuel : nat) (n : Z) :
  0 <= n ->
  Forall (fun c => exists d, 0 <= d < 16 /\ c = hex_char d)
         (hex_digits_fuel fuel n).
Proof.
  revert n. induction fuel as [|fuel IH]; intros n Hn; [constructor|].
  cbn [hex_digits_fuel]. destruct (Z.ltb_spec n 16).
  - constructor; [|constructor]. exists n. split; [lia|reflexivity].
  - apply Forall_app. split.
    + apply IH. apply Z.div_pos; lia.
    + constructor; [|constructor]. exists (n mod 16).
      split; [apply Z.mod_pos_bound; lia|reflexivity].
Qed.

Lemma hex_digits_fuel_length (fuel : nat) :
  forall (n : Z) (k : nat),
    0 <= n < 16 ^ Z.of_nat k -> (0 < k)%nat ->
    (length (hex_digits_fuel (S fuel) n) <= k)%nat
    /\ (1 <= length (hex_digits_fuel (S fuel) n))%nat.
Proof.
  induction fuel as [|fuel IH]; intros n k Hn Hk.
  - cbn [hex_digits_fuel]. destruct (n <? 16); cbn; lia.
  - change (hex_digits_fuel (S (S fuel)) n)
      with (if n <? 16 then [hex_char n]
            else hex_digits_fuel (S fuel) (n / 16) ++ [hex_char (n mod 16)]).
    destruct (Z.ltb_spec n 16); [cbn; lia|].
    destruct k as [|[|k]]; [lia|cbn in Hn; lia|].
    rewrite length_app. cbn [length].
    destruct (IH (n / 16) (S k)) as [Hle Hge]; [|lia|lia].
    split; [apply Z.div_pos; lia|].
    apply Z.div_lt_upper_bound; [lia|].
    rewrite (Nat2Z.inj_succ (S k)), Z.pow_succ_r in Hn by lia. lia.
Qed.

Lemma scan_hex_digits (fuel : nat) :
  forall (n : Z) (acc : option Z) (rest : str),
    acc_value acc = 0 -> 0 <= n < 16 ^ Z.of_nat (S fuel) ->
    scan_digits (hex_digits_fuel (S fuel) n ++ rest) false acc
    = scan_digits rest false (Some n).
Proof.
  induction fuel as [|fuel IH]; intros n acc rest Hacc Hn.
  - cbn [hex_digits_fuel]. change (16 ^ Z.of_nat 1) with 16 in Hn.
    destruct (Z.ltb_spec n 16); [|lia]. cbn [app scan_digits].
    destruct (hex_char_tests n) as (-> & _ & -> & _); [lia|].
    unfold acc_value in Hacc. destruct acc; subst;
      replace (16 * 0 + n) with n by lia; reflexivity.
  - change (hex_digits_fuel (S (S fuel)) n)
      with (if n <? 16 then [hex_char n]
            else hex_digits_fuel (S fuel) (n / 16) ++ [hex_char (n mod 16)]).
    destruct (Z.ltb_spec n 16).
    + cbn [app scan_digits].
      destruct (hex_char_tests n) as (-> & _ & -> & _); [lia|].
      unfold acc_value in Hacc. destruct acc; subst;
        replace (16 * 0 + n) with n by lia; reflexivity.
    + rewrite <- app_assoc. rewrite IH; [|assumption|].
      * cbn [app scan_digits].
        destruct (hex_char_tests (n mod 16)) as (-> & _ & -> & _);
          [apply Z.mod_pos_bound; lia|].
        replace (16 * (n / 16) + n mod 16) with n
          by (pose proof (Z.div_mod n 16); lia).
        reflexivity.
      * split; [apply Z.div_pos; lia|].
        apply Z.div_lt_upper_bound; [lia|].
        rewrite (Nat2Z.inj_succ (S fuel)), Z.pow_succ_r in Hn by lia. lia.
Qed.

Lemma scan_zeros (k : nat) (acc : option Z) (rest : str) :
  acc_value acc = 0 ->
  exists acc', acc_value acc' = 0 /\
    scan_digits (repeat "0"%char k ++ rest) false acc
    = scan_digits rest false acc'.
Proof.
  revert acc. induction k as [|k IH]; intros acc Hacc.
  - exists acc. split; [assumption|reflexivity].
  - cbn [repeat app scan_digits].
    change (is_underscore "0") with false.
    change (hex_digit_value "0") with (Some 0). cbv iota.
    destruct (IH (Some (16 * acc_value acc + 0))) as (acc' & H0 & E).
    { cbn [acc_value]. rewrite Hacc. reflexivity. }
    exists acc'. split; [assumption|]. rewrite <- E.
    unfold acc_value. destruct acc; reflexivity.
Qed.

Lemma fuel_enough (n : Z) :
  0 <= n -> n < 16 ^ Z.of_nat (S (Z.to_nat (Z.log2 n))).
Proof.
  intros Hn. pose proof (Z.log2_nonneg n) as Hl.
  rewrite Nat2Z.inj_succ, Z2Nat.id by assumption.
  destruct (Z.eq_dec n 0) as [->|Hz]; [cbn; lia|].
  pose proof (Z.log2_spec n ltac:(lia)) as [_ Hlt].
  apply Z.lt_le_trans with (2 ^ Z.succ (Z.log2 n)); [assumption|].
  apply Z.pow_le_mono_l. lia.
Qed.

(** The digits that [format_04x] writes after the sign. *)
Lemma padded_digits_value (n : Z) (k : nat) :
  0 <= n ->
  let s := repeat "0"%char k ++ py_hex_digits n in
  int_parse_digits 1 (int_strip_prefix s) = Some n
  /\ int_parse_digits (-1) (int_strip_prefix s) = Some (- n)
  /\ map to_ascii_space s = s
  /\ drop_spaces s = s
  /\ exists c t, s = c :: t /\ (code c =? 43) = false
                 /\ (code c =? 45) = false.
Proof.
  intros Hn s.
  assert (Hchars : Forall (fun c => exists d, 0 <= d < 16 /\ c = hex_char d) s).
  { apply Forall_app. split.
    - apply Forall_forall. intros c Hc. apply repeat_spec in Hc. subst c.
      exists 0. split; [lia|reflexivity].
    - now apply hex_digits_fuel_chars. }
  assert (Hscan : scan_digits s false None = Some (n, [])).
  { subst s. destruct (scan_zeros k None (py_hex_digits n)) as (acc' & H0 & ->);
      [reflexivity|].
    rewrite <- (app_nil_r (py_hex_digits n)). unfold py_hex_digits.
    rewrite scan_hex_digits; [reflexivity|assumption|].
    split; [assumption|now apply fuel_enough]. }
  assert (Hne : exists c t, s = c :: t).
  { subst s. unfold py_hex_digits.
    destruct (hex_digits_fuel_length (Z.to_nat (Z.log2 n)) n
                (S (Z.to_nat (Z.log2 n)))) as [_ Hge];
      [split; [assumption|now apply fuel_enough]|lia|].
    destruct k; cbn [repeat app]; [|eauto].
    destruct (hex_digits_fuel _ n); [cbn in Hge; lia|eauto]. }
  destruct Hne as (c & t & Hs).
  assert (Hstrip : int_strip_prefix s = s).
  { rewrite Hs in Hchars |- *. destruct t as [|x t]; [reflexivity|].
    inversion Hchars as [|? ? _ Ht]; subst.
    inversion Ht as [|? ? (d & Hd & ->) _]; subst.
    cbn [int_strip_prefix].
    destruct (hex_char_tests d Hd) as (_ & _ & _ & -> & _).
    now rewrite andb_false_r. }
  assert (Hc : exists d, 0 <= d < 16 /\ c = hex_char d).
  { rewrite Hs in Hchars. now inversion Hchars. }
  destruct Hc as (d & Hd & Hcd).
  destruct (hex_char_tests d Hd) as (_ & Hsp & Hus & _ & H43 & H45 & _).
  rewrite Hstrip. unfold int_parse_digits. rewrite Hscan, Hs.
  rewrite Hcd, Hus. cbn [drop_spaces].
  repeat split; try (f_equal; lia).
  - rewrite <- Hcd, <- Hs. clear - Hchars.
    induction Hchars as [|a l (e & He & ->) _ IH]; [reflexivity|].
    cbn [map]. rewrite IH.
    destruct (hex_char_tests e He) as (_ & _ & _ & _ & _ & _ & ->).
    reflexivity.
  - now rewrite Hsp.
  - exists (hex_char d), t. repeat split; assumption.
Qed.

Lemma format_04x_roundtrip (n : Z) : py_int16 (format_04x n) = Some n.
Proof.
  unfold format_04x. rewrite py_int16_view.
  destruct (Z.ltb_spec n 0) as [Hneg|Hpos]; cbv zeta;
    match goal with
    | |- context [repeat _ ?pad] => generalize pad; intros k
    end;
    destruct (padded_digits_value (Z.abs n) k ltac:(lia))
      as (Hp & Hm & Hmap & Hdrop & c & t & Hs & H43 & H45).
  - change (lit "-" ++ repeat "0"%char k ++ py_hex_digits (Z.abs n))
      with ("-"%char :: (repeat "0"%char k ++ py_hex_digits (Z.abs n))).
    cbn [map]. rewrite Hmap.
    change (to_ascii_space "-") with "-"%char.
    cbn [drop_spaces]. change (is_space "-") with false. cbv iota.
    change (code "-" =? 43) with false. change (code "-" =? 45) with true.
    cbv iota. rewrite Hm. f_equal. lia.
  - cbn [app]. rewrite Hmap, Hdrop.
    rewrite Hs in Hp |- *. rewrite H43, H45, Hp. f_equal. lia.
Qed.

Lemma format_04x_length (n : Z) :
  0 <= n < 65536 -> length (format_04x n) = 4%nat.
Proof.
  intros Hn. unfold format_04x.
  destruct (Z.ltb_spec n 0); [lia|]. cbn [app length].
  rewrite length_app, repeat_length. rewrite Z.abs_eq by lia.
  unfold py_hex_digits.
  destruct (hex_digits_fuel_length (Z.to_nat (Z.log2 n)) n 4); [|lia|lia].
  change (16 ^ Z.of_nat 4) with 65536. lia.
Qed.

(** ** Asset type names *)

Lemma asset_name_cases (a : Z) :
  (a = 0 /\ get_asset_type_name a = lit "BTC (Bitcoin)")
  \/ (a = 1 /\ get_asset_type_name a = lit "BTC (Bitcoin - Satoshinet)")
  \/ (a = 2 /\ get_asset_type_name a
               = lit "BHASH (BHASH Protocol Asset Type)")
  \/ (3 <= a <= 65535 /\
      get_asset_type_name a
      = lit "Reserved Extension (0x" ++ format_04x a ++ lit ")")
  \/ ((a < 0 \/ 65535 < a) /\
      get_asset_type_name a
      = lit "Unknown Type (0x" ++ format_04x a ++ lit ")").
Proof.
  unfold get_asset_type_name, ASSET_TYPES. cbn [int_dict_get].
  destruct (Z.eqb_spec 0 a); [left; split; [lia|reflexivity]|].
  destruct (Z.eqb_spec 1 a); [right; left; split; [lia|reflexivity]|].
  destruct (Z.eqb_spec 2 a); [right; right; left; split; [lia|reflexivity]|].
  destruct (Z.leb_spec 3 a); destruct (Z.leb_spec a 65535); cbn [andb].
  - right; right; right; left. split; [lia|reflexivity].
  - right; right; right; right. split; [lia|reflexivity].
  - right; right; right; right. split; [lia|reflexivity].
  - right; right; right; right. split; [lia|reflexivity].
Qed.

Lemma format_04x_inj (a b : Z) (pre : str) :
  pre ++ format_04x a ++ lit ")" = pre ++ format_04x b ++ lit ")" -> a = b.
Proof.
  intros H. apply app_inv_head, app_inv_tail in H.
  pose proof (format_04x_roundtrip a) as Ha. rewrite H in Ha.
  rewrite format_04x_roundtrip in Ha. now injection Ha.
Qed.

Lemma extract_upper (data : str) :
  extract_vout_scripts (upper_text data)
  = result_map (map upper_text) (extract_vout_scripts data).
Proof.
  rewrite !extract_walk, has_marker_upper. apply walk_upper.
Qed.

(** * More of the program: properties *)

(** X1.  [parse_varint] does not depend on the case of the hexadecimal
    letters: on any text and at any offset, the text with [a]-[f] in upper
    case gives the same value and the same new offset, or the same failure. *)
Theorem parse_varint_any_case (data : str) (offset : Z) :
  parse_varint (upper_text data) offset = parse_varint data offset.
Proof. apply parse_varint_upper. Qed.

(** X2.  [extract_vout_scripts] follows the case of its input: on any text,
    putting [a]-[f] in upper case changes nothing but the case of the
    scripts returned; the walk fails on the one text exactly when it fails
    on the other. *)
Theorem extract_vout_scripts_any_case (data : str) :
  extract_vout_scripts (upper_text data)
  = result_map (map upper_text) (extract_vout_scripts data).
Proof. apply extract_upper. Qed.

(** X3.  [parse_bhash_from_script] tests the opcode with
    [startswith('6a')], in lower case: on a text whose letters [a]-[f] are in
    upper case it returns [None], whatever the text, so no script extracted
    from an upper-case transaction text is decoded. *)
Theorem parse_bhash_upper_case_none (data : str) :
  parse_bhash_from_script (upper_text data) = Ok None
  /\ forall scripts,
       extract_vout_scripts (upper_text data) = Ok scripts ->
       Forall (fun script => parse_bhash_from_script script = Ok None)
              scripts.
Proof.
  assert (H : forall s, parse_bhash_from_script (upper_text s) = Ok None).
  { intros s. unfold parse_bhash_from_script.
    now rewrite startswith_upper_6a. }
  split; [apply H|].
  intros scripts. rewrite extract_upper.
  destruct (extract_vout_scripts data) as [l|]; [|discriminate].
  cbn [result_map]. intros [= <-].
  apply Forall_map, Forall_forall. intros s _. apply H.
Qed.

Lemma parse_bhash_upper_case_none_witness :
  extract_vout_scripts (upper_text (hex ex_legacy))
  = Ok [lit "6A01020304"]
  /\ Forall (fun script => parse_bhash_from_script script = Ok None)
            [lit "6A01020304"].
Proof.
  assert (H : extract_vout_scripts (upper_text (hex ex_legacy))
              = Ok [lit "6A01020304"]) by (vm_compute; reflexivity).
  split; [exact H|].
  exact (proj2 (parse_bhash_upper_case_none (hex ex_legacy)) _ H).
Defined.

(** X4.  The scan of [main] cannot fail on a transaction given as the text
    of a byte buffer: every script that [extract_vout_scripts] returns is
    accepted by [parse_bhash_from_script], which returns a record or [None]
    for it and never raises. *)
Theorem extracted_scripts_decode (bs : list byte) (scripts : list str) :
  extract_vout_scripts (hex bs) = Ok scripts ->
  Forall (fun script => exists r, parse_bhash_from_script script = Ok r)
         scripts.
Proof.
  intros H. destruct (extract_outcome bs) as [E|(l & E & _)];
    rewrite E in H; [discriminate|].
  injection H as <-. apply Forall_map, Forall_forall. intros s _.
  rewrite parse_bhash_hex. eexists. reflexivity.
Qed.

Lemma extracted_scripts_decode_witness :
  Forall (fun script => exists r, parse_bhash_from_script script = Ok r)
         [lit "6a01020304"].
Proof.
  apply (extracted_scripts_decode ex_legacy [lit "6a01020304"]).
  vm_compute. reflexivity.
Defined.

(** X5.  A text of at most eight characters, the empty text included, holds
    no input count: [extract_vout_scripts] raises [ValueError] on it, whatever
    the characters are. *)
Theorem extract_short_text_raises (data : str) :
  len data <= 8 -> extract_vout_scripts data = Raise ValueError.
Proof.
  intros H. rewrite extract_walk.
  assert (Hm : has_marker data 8 = false).
  { unfold has_marker. now rewrite (py_slice_beyond data 8 (8 + 2)) by lia. }
  rewrite Hm. unfold walk, parse_varint.
  rewrite (py_slice_beyond data 8 (8 + 2)) by lia. reflexivity.
Qed.

Lemma extract_short_text_raises_witness :
  len (lit "01000000") <= 8
  /\ extract_vout_scripts (lit "01000000") = Raise ValueError.
Proof.
  assert (H : len (lit "01000000") <= 8) by (vm_compute; discriminate).
  split; [exact H|]. exact (extract_short_text_raises _ H).
Defined.

(** X6.  When [extract_vout_scripts] returns, on any text, the list has one
    script per unit of the output count it decoded (none when that count is
    not positive): the witness pass adds and removes nothing. *)
Theorem extract_one_script_per_output (data : str) (scripts : list str) :
  extract_vout_scripts data = Ok scripts ->
  exists c, decoded_output_count data = Ok c
            /\ len scripts = Z.max 0 c.
Proof.
  rewrite extract_start. unfold walk, decoded_output_count.
  destruct (parse_varint data (start_pos data)) as [[k p]|]; [|discriminate].
  cbn [bind].
  destruct (for_range (skip_input data) k p) as [p1|]; [|discriminate].
  cbn [bind].
  destruct (parse_varint data p1) as [[n p2]|]; [|discriminate].
  cbn [bind]. rewrite for_range_to_nat.
  destruct (iter_nat (read_output data) (Z.to_nat n) (p2, []))
    as [[p3 l]|] eqn:E; [|discriminate].
  cbn [bind]. apply read_outputs_length in E. cbn [snd length] in E.
  intros H. exists n. split; [reflexivity|].
  assert (scripts = l).
  { destruct (has_marker data 8); [|now injection H].
    destruct (for_range (skip_witness data) k p3); [|discriminate].
    now injection H. }
  subst l. unfold len. lia.
Qed.

Lemma extract_one_script_per_output_witness :
  exists c, decoded_output_count (hex ex_cut) = Ok c
            /\ len [lit "6a"] = Z.max 0 c.
Proof.
  apply (extract_one_script_per_output (hex ex_cut) [lit "6a"]).
  vm_compute. reflexivity.
Defined.

(** X7.  The witness pass can discard a complete list of scripts: for a
    well-formed segregated-witness serialisation with at least one input
    whose bytes stop right after the last output, every output has been read
    when the pass starts, and [extract_vout_scripts] raises [ValueError]. *)
Theorem segwit_without_witness_raises (version : list byte)
    (ins : list tx_in) (outs : list tx_out) :
  wf_tx version ins outs = true -> (0 < length ins)%nat ->
  extract_vout_scripts (hex (segwit_tx version ins outs [] []))
  = Raise ValueError.
Proof.
  intros Hwf Hk. rewrite extract_walk, has_marker_hex.
  apply wf_tx_parts in Hwf as (Hv & Hi & Ho & Hins & Houts).
  assert (Hm : marker_bytes (segwit_tx version ins outs [] []) = true).
  { unfold marker_bytes, segwit_tx.
    rewrite skipn_app_length by (now rewrite Hv). reflexivity. }
  rewrite Hm. unfold segwit_tx.
  change (flat_map ser_stack [] ++ []) with (@nil byte).
  rewrite (app_assoc version).
  replace 12 with (2 * Z.of_nat (length (version ++ [x00; x01])))
    by (rewrite length_app, Hv; reflexivity).
  pose proof (walk_witness_pass (version ++ [x00; x01]) ins outs [] true
                Hi Ho Hins Houts) as Hw.
  cbv zeta in Hw. rewrite Hw. clear Hw.
  destruct (length ins) as [|n]; [lia|]. cbn [iter_nat length].
  rewrite Nat.sub_0_r. unfold skip_witness.
  rewrite (parse_varint_end _ _ _ eq_refl (skipn_all _)). reflexivity.
Qed.

Lemma segwit_without_witness_raises_witness :
  extract_vout_scripts (hex (segwit_tx ex_version [ex_in] [ex_out] [] []))
  = Raise ValueError.
Proof.
  apply (segwit_without_witness_raises ex_version [ex_in] [ex_out]).
  - reflexivity.
  - cbn. lia.
Defined.

(** X8.  On any text, the only exception that leaves
    [parse_bhash_from_script] is the [ValueError] of [bytes.fromhex] on a
    payload that is not hexadecimal: the [ValueError] of [int] is caught, and
    the length test keeps the indexing of the payload and of the label
    string in range, so [IndexError] is never raised. *)
Theorem parse_bhash_raises_only_value_error (script_hex : str)
    (e : exception) :
  parse_bhash_from_script script_hex = Raise e ->
  e = ValueError
  /\ exists push_len,
       py_int16 (py_slice (py_slice_from script_hex 2) 0 2) = Some push_len
       /\ py_fromhex (py_slice (py_slice_from script_hex 2) 2
                        (2 + push_len * 2)) = None.
Proof.
  rewrite parse_bhash_payload.
  destruct (negb (startswith script_hex (lit "6a"))); [discriminate|].
  cbv zeta. destruct (len (py_slice_from script_hex 2) <? 2); [discriminate|].
  destruct (py_int16 _) as [push_len|]; [|discriminate].
  destruct (len (py_slice_from script_hex 2) <? 2 + push_len * 2);
    [discriminate|].
  unfold bytes_fromhex.
  destruct (py_fromhex _) as [pb|] eqn:Hpb; cbn [bind].
  - destruct (decode_payload_ok pb) as [r ->]. discriminate.
  - intros [= <-]. split; [reflexivity|]. exists push_len. auto.
Qed.

Lemma parse_bhash_raises_only_value_error_witness :
  ValueError = ValueError
  /\ exists push_len,
       py_int16 (py_slice (py_slice_from (lit "6a01zz") 2) 0 2)
       = Some push_len
       /\ py_fromhex (py_slice (py_slice_from (lit "6a01zz") 2) 2
                        (2 + push_len * 2)) = None.
Proof.
  apply (parse_bhash_raises_only_value_error (lit "6a01zz") ValueError).
  reflexivity.
Defined.

(** X9.  In every record that [parse_bhash_from_script] returns, on any
    text, [magic] is 0x91, [content_type] is a byte, [block_height] fits 32
    bits, [asset_type] fits 16 bits and every entry of [bet_data] fits 16
    bits; none is negative. *)
Theorem record_fields_in_range (script_hex : str) (r : bhash_record) :
  parse_bhash_from_script script_hex = Ok (Some r) ->
  magic r = 145
  /\ 0 <= content_type r < 256
  /\ 0 <= block_height r < 4294967296
  /\ 0 <= asset_type r < 65536
  /\ Forall (fun a => 0 <= a < 65536) (bet_data r).
Proof.
  intros H. apply parse_bhash_some_window in H as (_ & p & _ & Hm & ->).
  split; [exact Hm|]. apply wire_record_ranges.
Qed.

Lemma record_fields_in_range_witness :
  magic (wire_record ex_payload) = 145
  /\ 0 <= content_type (wire_record ex_payload) < 256
  /\ 0 <= block_height (wire_record ex_payload) < 4294967296
  /\ 0 <= asset_type (wire_record ex_payload) < 65536
  /\ Forall (fun a => 0 <= a < 65536) (bet_data (wire_record ex_payload)).
Proof.
  apply (record_fields_in_range (hex ex_script) (wire_record ex_payload)).
  vm_compute. reflexivity.
Defined.

(** X10.  No text of fewer than 84 characters gives a record: two
    characters of opcode, two of push length and the 80 of a 40-byte payload
    are needed, whatever the text is. *)
Theorem record_needs_84_characters (script_hex : str) (r : bhash_record) :
  parse_bhash_from_script script_hex = Ok (Some r) -> 84 <= len script_hex.
Proof. intros H. now apply parse_bhash_some_window in H. Qed.

Lemma record_needs_84_characters_witness : 84 <= len (hex ex_script).
Proof.
  apply (record_needs_84_characters (hex ex_script) (wire_record ex_payload)).
  vm_compute. reflexivity.
Defined.

(** X11.  Looking a nibble label up in the [bet_dict] of a returned record
    gives the amount of that slot of [bet_data] when it is not zero, and
    nothing when it is zero. *)
Theorem bet_dict_lookup (script_hex : str) (r : bhash_record) (i : nat) :
  parse_bhash_from_script script_hex = Ok (Some r) -> (i < 16)%nat ->
  dict_get (bet_dict r) (hex_digit i)
  = if nth i (bet_data r) 0 =? 0 then None
    else Some (nth i (bet_data r) 0).
Proof.
  intros H Hi. apply parse_bhash_some in H as (p & _ & ->).
  cbn [wire_record bet_dict bet_data].
  pose proof (wire_bet_data_length p) as Hl.
  apply (dict_get_entries (wire_bet_data p) 0 i); lia.
Qed.

Lemma bet_dict_lookup_witness :
  dict_get (bet_dict (wire_record ex_payload)) (hex_digit 0)
  = if nth 0 (bet_data (wire_record ex_payload)) 0 =? 0 then None
    else Some (nth 0 (bet_data (wire_record ex_payload)) 0).
Proof.
  apply (bet_dict_lookup (hex ex_script) (wire_record ex_payload) 0).
  - vm_compute. reflexivity.
  - lia.
Defined.

(** X12.  For a code from 0x0003 to 0xFFFF [get_asset_type_name] returns
    [Reserved Extension (0x....)] with exactly four hexadecimal digits, and
    reading those digits back with [int(., 16)] gives the code. *)
Theorem reserved_name_holds_code (a : Z) :
  3 <= a <= 65535 ->
  get_asset_type_name a
  = lit "Reserved Extension (0x" ++ format_04x a ++ lit ")"
  /\ length (format_04x a) = 4%nat
  /\ py_int16 (format_04x a) = Some a.
Proof.
  intros Ha. split; [|split].
  - destruct (asset_name_cases a) as [H|[H|[H|[H|H]]]];
      destruct H as [Hr E]; try lia. exact E.
  - apply format_04x_length. lia.
  - apply format_04x_roundtrip.
Qed.

Lemma reserved_name_holds_code_witness :
  get_asset_type_name 2748 = lit "Reserved Extension (0x0abc)"
  /\ length (format_04x 2748) = 4%nat
  /\ py_int16 (format_04x 2748) = Some 2748.
Proof.
  apply (reserved_name_holds_code 2748). lia.
Defined.

(** X13.  [get_asset_type_name] gives different names to different codes,
    over all integers. *)
Theorem asset_names_distinct (a b : Z) :
  a <> b -> get_asset_type_name a <> get_asset_type_name b.
Proof.
  intros Hab Heq. apply Hab. revert Heq.
  destruct (asset_name_cases a) as [H|[H|[H|[H|H]]]];
    destruct H as [Ha ->];
    destruct (asset_name_cases b) as [H|[H|[H|[H|H]]]];
    destruct H as [Hb ->];
    try lia; try discriminate; apply format_04x_inj.
Qed.

Lemma asset_names_distinct_witness :
  get_asset_type_name 65535 <> get_asset_type_name 65536.
Proof. apply (asset_names_distinct 65535 65536). lia. Defined.

(** X14.  The asset type of a record that [parse_bhash_from_script] returns
    is never named [Unknown Type]: [get_asset_type_name] gives it one of the
    three names of [ASSET_TYPES] or a [Reserved Extension] name. *)
Theorem record_asset_name_known (script_hex : str) (r : bhash_record) :
  parse_bhash_from_script script_hex = Ok (Some r) ->
  (asset_type r <= 2 /\
   In (asset_type r, get_asset_type_name (asset_type r)) ASSET_TYPES)
  \/ (3 <= asset_type r /\
      get_asset_type_name (asset_type r)
      = lit "Reserved Extension (0x" ++ format_04x (asset_type r) ++ lit ")").
Proof.
  intros H. apply parse_bhash_some in H as (p & _ & ->).
  destruct (wire_record_ranges p) as (_ & _ & Hr & _).
  destruct (asset_name_cases (asset_type (wire_record p)))
    as [H|[H|[H|[H|H]]]]; destruct H as [Ha E]; rewrite E.
  - left. rewrite Ha. split; [lia|]. left. reflexivity.
  - left. rewrite Ha. split; [lia|]. right. left. reflexivity.
  - left. rewrite Ha. split; [lia|]. right. right. left. reflexivity.
  - right. split; [lia|reflexivity].
  - lia.
Qed.

Lemma record_asset_name_known_witness :
  (asset_type (wire_record ex_payload) <= 2 /\
   In (asset_type (wire_record ex_payload),
       get_asset_type_name (asset_type (wire_record ex_payload)))
      ASSET_TYPES)
  \/ (3 <= asset_type (wire_record ex_payload) /\
      get_asset_type_name (asset_type (wire_record ex_payload))
      = lit "Reserved Extension (0x"
        ++ format_04x (asset_type (wire_record ex_payload)) ++ lit ")").
Proof.
  apply (record_asset_name_known (hex ex_script) (wire_record ex_payload)).
  vm_compute. reflexivity.
Defined.
